(** * Key cancellation engine and mouse turbo click: a shallow embedding

    Sources:
    - [quantum/process_keycode/process_key_cancellation.c]
    - [keyboards/lemokey/l3/ansi/keymaps/via/features/mouse_turbo_click.c]

    The C globals become fields of an explicit state record that every
    operation takes and returns.  Calls into the rest of the firmware
    ([add_key], [del_key], [eeconfig_update_keymap], ...) are recorded, in
    program order, in a list of actions returned next to the state. *)

From stdpp Require Import base list gmap.
From Stdlib Require Import ZArith Lia.

Set Default Proof Using "Type".

(** ** Data *)

(** Keycodes ([uint16_t]) are only ever stored and compared for equality,
    never computed with, so they are integers with no wrap-around to write
    out; the count is the C [int]. *)

(** [#define KEYREPORT_BUFFER_SIZE 10] *)
Definition KEYREPORT_BUFFER_SIZE : Z := 10.

(** [key_cancellation_t]: one entry of the cancellation table. *)
Record key_cancellation_t := KeyCancellation {
  press : Z;
  unpress : Z
}.

(** The two bits of [keymap_config] that the engine reads and writes. *)
Module keymap_config_t.
Record t := Make {
  key_cancellation_enable : bool;
  key_cancellation_recovery_enable : bool
}.
End keymap_config_t.

(** [keyevent_t] and [keyrecord_t], reduced to the field the code reads. *)
Record keyevent_t := KeyEvent { pressed : bool }.
Record keyrecord_t := KeyRecord { event : keyevent_t }.

(** The file-level globals of [process_key_cancellation.c]. *)
Record engine := Engine {
  buffer_keyreports : list Z;        (* uint16_t buffer_keyreports[10] *)
  buffer_keyreport_count : Z;        (* int buffer_keyreport_count *)
  buffer_keyreports_temp : list Z;   (* uint16_t buffer_keyreports_temp[10] *)
  keymap_config : keymap_config_t.t
}.

(** Calls that leave the engine, in the order the code makes them. *)
Inductive host_action :=
  | add_key (keycode : Z)
  | del_key (keycode : Z)
  | eeconfig_update_keymap (raw : keymap_config_t.t).

(** [a[i]] for an array held as a list.  Every index the code forms is
    produced by a loop counter running from 0 below the element count, which
    stays within the array for the states described by [buffer_ok] below. *)
Definition get (a : list Z) (i : nat) : Z := default 0%Z (a !! i).

(** The loop counters [0, 1, ..., n-1] of [for (int i = 0; i < n; i++)]; the
    loop is empty when [n <= 0]. *)
Definition upto (n : Z) : list nat := seq 0 (Z.to_nat n).

Definition with_buffer (s : engine) (b : list Z) (c : Z) : engine :=
  Engine b c (buffer_keyreports_temp s) (keymap_config s).

Definition with_temp (s : engine) (t : list Z) : engine :=
  Engine (buffer_keyreports s) (buffer_keyreport_count s) t (keymap_config s).

Definition with_config (s : engine) (c : keymap_config_t.t) : engine :=
  Engine (buffer_keyreports s) (buffer_keyreport_count s)
         (buffer_keyreports_temp s) c.

(** Zero-initialised globals; the configuration word is loaded from
    persistent storage at start-up. *)
Definition power_on (cfg : keymap_config_t.t) : engine :=
  Engine (replicate 10 0%Z) 0 (replicate 10 0%Z) cfg.

(** ** Hold buffer operations *)

(** [key_cancellation_is_key_in_buffer]: linear search of the first
    [buffer_keyreport_count] entries. *)
Definition key_cancellation_is_key_in_buffer (keycode : Z) (s : engine) : bool :=
  existsb (λ i, get (buffer_keyreports s) i =? keycode)%Z
          (upto (buffer_keyreport_count s)).

(** [add_key_buffer]: two early returns, then append at index
    [buffer_keyreport_count]. *)
Definition add_key_buffer (keycode : Z) (s : engine) : engine :=
  if key_cancellation_is_key_in_buffer keycode s then s
  else if (KEYREPORT_BUFFER_SIZE <=? buffer_keyreport_count s)%Z then s
  else with_buffer s
         (<[Z.to_nat (buffer_keyreport_count s) := keycode]> (buffer_keyreports s))
         (buffer_keyreport_count s + 1).

(** The inner loop of [del_key_buffer]:
    [for (j = i; j < count - 1; j++) buffer[j] = buffer[j + 1];] *)
Definition shift_left (b : list Z) (i : nat) (count : Z) : list Z :=
  foldl (λ b j, <[j := get b (j + 1)]> b) b
        (seq i (Z.to_nat (count - 1) - i)).

(** [del_key_buffer]: at the first index holding [keycode], shift the tail
    one place left, decrement the count and stop. *)
Definition del_key_buffer (keycode : Z) (s : engine) : engine :=
  match find (λ i, get (buffer_keyreports s) i =? keycode)%Z
             (upto (buffer_keyreport_count s)) with
  | Some i =>
      with_buffer s
        (shift_left (buffer_keyreports s) i (buffer_keyreport_count s))
        (buffer_keyreport_count s - 1)
  | None => s
  end.

(** [del_key_buffer_temp]: the first index below [end_index] of the scratch
    array that holds [keycode] is overwritten with 0. *)
Definition del_key_buffer_temp (keycode : Z) (end_index : nat) (s : engine) : engine :=
  match find (λ i, get (buffer_keyreports_temp s) i =? keycode)%Z
             (seq 0 end_index) with
  | Some i => with_temp s (<[i := 0%Z]> (buffer_keyreports_temp s))
  | None => s
  end.

(** The logical contents of the hold buffer. *)
Definition held (s : engine) : list Z :=
  take (Z.to_nat (buffer_keyreport_count s)) (buffer_keyreports s).

(** The states the engine can be in: ten-element arrays, a count within the
    capacity, and no keycode twice among the counted entries. *)
Record buffer_ok (s : engine) : Prop := BufferOk {
  ok_length : length (buffer_keyreports s) = 10;
  ok_count : (0 <= buffer_keyreport_count s <= KEYREPORT_BUFFER_SIZE)%Z;
  ok_nodup : NoDup (held s)
}.

(** A sequence of hold-buffer operations. *)
Inductive buffer_op := Add (keycode : Z) | Del (keycode : Z).

Definition run_op (s : engine) (o : buffer_op) : engine :=
  match o with
  | Add k => add_key_buffer k s
  | Del k => del_key_buffer k s
  end.

Definition run_ops (ops : list buffer_op) (s : engine) : engine :=
  foldl run_op s ops.

(** ** The engine's collaborators

    Everything [process_key_cancellation.c] takes from other files: the
    cancellation table behind [key_cancellation_count()] and
    [key_cancellation_get(i)] (the list [get(0); ...; get(count-1)], so that a
    loop over [i] is a traversal of the list), the [IS_BASIC_KEYCODE] macro,
    the weakly linked user hook, and the six control keycodes. *)
Record keymap := Keymap {
  key_cancellation_table : list key_cancellation_t;
  IS_BASIC_KEYCODE : Z → bool;
  process_key_cancellation_user : Z → keyrecord_t → bool;
  QK_KEY_CANCELLATION_ON : Z;
  QK_KEY_CANCELLATION_OFF : Z;
  QK_KEY_CANCELLATION_TOGGLE : Z;
  QK_KEY_CANCELLATION_RECOVERY_ON : Z;
  QK_KEY_CANCELLATION_RECOVERY_OFF : Z;
  QK_KEY_CANCELLATION_RECOVERY_TOGGLE : Z
}.

(** ** Mode control *)

Definition cancellation_flag (s : engine) : bool :=
  keymap_config_t.key_cancellation_enable (keymap_config s).

Definition recovery_flag (s : engine) : bool :=
  keymap_config_t.key_cancellation_recovery_enable (keymap_config s).

(** Store the new configuration word and write it to the EEPROM. *)
Definition update_config (s : engine) (c : keymap_config_t.t)
  : engine * list host_action :=
  (with_config s c, [eeconfig_update_keymap c]).

Definition key_cancellation_is_enabled (s : engine) : bool :=
  cancellation_flag s.

Definition key_cancellation_enable (s : engine) :=
  update_config s (keymap_config_t.Make true (recovery_flag s)).

Definition key_cancellation_disable (s : engine) :=
  update_config s (keymap_config_t.Make false (recovery_flag s)).

Definition key_cancellation_toggle (s : engine) :=
  update_config s
    (keymap_config_t.Make (negb (cancellation_flag s)) (recovery_flag s)).

Definition key_cancellation_recovery_is_enabled (s : engine) : bool :=
  cancellation_flag s && recovery_flag s.

Definition key_cancellation_recovery_enable (s : engine) :=
  update_config s (keymap_config_t.Make (cancellation_flag s) true).

Definition key_cancellation_recovery_disable (s : engine) :=
  update_config s (keymap_config_t.Make (cancellation_flag s) false).

Definition key_cancellation_recovery_toggle (s : engine) :=
  update_config s
    (keymap_config_t.Make (cancellation_flag s) (negb (recovery_flag s))).

(** ** The process handler *)

Section Engine.
Context (K : keymap).

(** [key_cancellation_is_key_in_press_list] *)
Definition key_cancellation_is_key_in_press_list (keycode : Z) : bool :=
  existsb (λ kc, press kc =? keycode)%Z (key_cancellation_table K).

(** The [switch] on the pressed edge: the mode operation of a control
    keycode, cases tried in the order they are written. *)
Definition control_operation (keycode : Z)
  : option (engine → engine * list host_action) :=
  if (keycode =? QK_KEY_CANCELLATION_ON K)%Z then
    Some key_cancellation_enable
  else if (keycode =? QK_KEY_CANCELLATION_OFF K)%Z then
    Some key_cancellation_disable
  else if (keycode =? QK_KEY_CANCELLATION_TOGGLE K)%Z then
    Some key_cancellation_toggle
  else if (keycode =? QK_KEY_CANCELLATION_RECOVERY_ON K)%Z then
    Some key_cancellation_recovery_enable
  else if (keycode =? QK_KEY_CANCELLATION_RECOVERY_OFF K)%Z then
    Some key_cancellation_recovery_disable
  else if (keycode =? QK_KEY_CANCELLATION_RECOVERY_TOGGLE K)%Z then
    Some key_cancellation_recovery_toggle
  else None.

(** The hold buffer update made while recovery is enabled. *)
Definition track_key (keycode : Z) (record : keyrecord_t) (s : engine) : engine :=
  if key_cancellation_is_key_in_press_list keycode then
    if pressed (event record) then add_key_buffer keycode s
    else del_key_buffer keycode s
  else s.

(** [memcpy(buffer_keyreports_temp, buffer_keyreports, sizeof(...))] *)
Definition snapshot (s : engine) : engine :=
  with_temp s (buffer_keyreports s).

(** The pressed branch: one [del_key] per table entry whose [press] is the
    incoming keycode, in table order. *)
Definition press_path (keycode : Z) : list host_action :=
  flat_map (λ kc, if (keycode =? press kc)%Z then [del_key (unpress kc)] else [])
           (key_cancellation_table K).

(** The body of the two nested loops of the released branch, for scratch
    position [j] and one table entry. *)
Definition scan_pair (j : nat) (s : engine) (kc : key_cancellation_t) : engine :=
  if (press kc =? get (buffer_keyreports_temp s) j)%Z then
    if key_cancellation_is_key_in_buffer (unpress kc) s then
      del_key_buffer_temp (unpress kc) j s
    else s
  else s.

Definition scan_position (s : engine) (j : nat) : engine :=
  foldl (scan_pair j) s (key_cancellation_table K).

(** [for (int j = buffer_keyreport_count - 1; j >= 0; j--)] *)
Definition release_scan (s : engine) : engine :=
  foldl scan_position s (reverse (upto (buffer_keyreport_count s))).

(** The final loop of the released branch, comparing buffer and scratch
    array position by position. *)
Definition compare_position (s : engine) (i : nat) : list host_action :=
  if negb (get (buffer_keyreports s) i =? get (buffer_keyreports_temp s) i)%Z then
    if (get (buffer_keyreports_temp s) i =? 0)%Z then
      [del_key (get (buffer_keyreports s) i)]
    else []
  else [add_key (get (buffer_keyreports_temp s) i)].

Definition release_compare (s : engine) : list host_action :=
  flat_map (compare_position s) (upto (buffer_keyreport_count s)).

(** [process_key_cancellation]: the value returned, the globals afterwards
    and the calls made. *)
Definition process_key_cancellation (keycode : Z) (record : keyrecord_t)
    (s : engine) : bool * engine * list host_action :=
  match (if pressed (event record) then control_operation keycode else None) with
  | Some operation =>
      let '(s', out) := operation s in (false, s', out)
  | None =>
      if negb (cancellation_flag s) then (true, s, [])
      else if negb (IS_BASIC_KEYCODE K keycode) then (true, s, [])
      else if negb (process_key_cancellation_user K keycode record) then (true, s, [])
      else if negb (recovery_flag s) && negb (pressed (event record)) then (true, s, [])
      else
        let s1 := if recovery_flag s then track_key keycode record s else s in
        if recovery_flag s && (buffer_keyreport_count s1 =? 0)%Z then (true, s1, [])
        else
          let s2 := snapshot s1 in
          if pressed (event record) then (true, s2, press_path keycode)
          else
            let s3 := release_scan s2 in
            (true, s3, release_compare s3)
  end.
End Engine.

(** A key transition as the matrix scan delivers it. *)
Definition key_press : keyrecord_t := KeyRecord (KeyEvent true).
Definition key_release : keyrecord_t := KeyRecord (KeyEvent false).

(** Feed a sequence of transitions to the handler, keeping what each call
    returned and emitted. *)
Fixpoint process_all (K : keymap) (evs : list (Z * keyrecord_t)) (s : engine)
  : engine * list (bool * list host_action) :=
  match evs with
  | [] => (s, [])
  | (keycode, record) :: evs' =>
      let '(fwd, s', out) := process_key_cancellation K keycode record s in
      let '(s'', rest) := process_all K evs' s' in
      (s'', (fwd, out) :: rest)
  end.

(** The calls made while handling the last transition of a run. *)
Definition final_calls (K : keymap) (evs : list (Z * keyrecord_t)) (s : engine)
  : list host_action :=
  match last (process_all K evs s).2 with
  | Some (_, out) => out
  | None => []
  end.

(** Modelled from the spec: the host report that [add_key], [del_key] and the
    forwarding of the original event act on (their code is in other files of
    the firmware).  The report is the set of keycodes the host sees as held:
    [add_key] registers a keycode, [del_key] releases it, and an event the
    handler lets through registers its keycode on a press and releases it on
    a release, after the handler's own corrections. *)
Definition host_apply (h : gset Z) (a : host_action) : gset Z :=
  match a with
  | add_key k => {[k]} ∪ h
  | del_key k => h ∖ {[k]}
  | eeconfig_update_keymap _ => h
  end.

Definition forward (keycode : Z) (record : keyrecord_t) (h : gset Z) : gset Z :=
  if pressed (event record) then {[keycode]} ∪ h else h ∖ {[keycode]}.

Definition host_step (K : keymap) (st : engine * gset Z) (ev : Z * keyrecord_t)
  : engine * gset Z :=
  let '(fwd, s', out) := process_key_cancellation K ev.1 ev.2 st.1 in
  let h := foldl host_apply st.2 out in
  (s', if fwd then forward ev.1 ev.2 h else h).

Definition host_run (K : keymap) (evs : list (Z * keyrecord_t))
    (st : engine * gset Z) : engine * gset Z :=
  foldl (host_step K) st evs.

(** ** Mouse turbo click

    [mouse_turbo_click.c]: three file-level statics, a deferred-execution
    callback that alternately registers and unregisters one keycode, and the
    process handler that toggles it. *)
Module MouseTurboClick.

(** What the file takes from the rest of the firmware: the keycode behind
    [MOUSE_TURBO_CLICK_KEY] (by default [KC_MS_BTN1]), the token value
    [INVALID_DEFERRED_TOKEN], and the token [defer_exec] hands back for a
    request with the given delay. *)
Record firmware := Firmware {
  MOUSE_TURBO_CLICK_KEY : Z;
  INVALID_DEFERRED_TOKEN : Z;
  defer_exec : Z → Z
}.

(** [#define MOUSE_TURBO_CLICK_PERIOD 10] *)
Definition MOUSE_TURBO_CLICK_PERIOD : Z := 10.

Record state := State {
  turbo_enabled : bool;
  click_token : Z;
  click_registered : bool
}.

(** Calls made into the firmware, in program order. *)
Inductive call :=
  | register_code16 (keycode : Z)
  | unregister_code16 (keycode : Z)
  | defer_exec_call (delay_ms : Z)
  | cancel_deferred_exec (token : Z).

(** The statics as initialised: turbo off, no callback scheduled, the click
    key not registered. *)
Definition idle (F : firmware) : state :=
  State false (INVALID_DEFERRED_TOKEN F) false.

Definition is_turbo_click_active (s : state) : bool := turbo_enabled s.

Section Handler.
Context (F : firmware).

(** [turbo_click_callback]: the delay until the next run, the statics
    afterwards and the call made. *)
Definition turbo_click_callback (trigger_time : Z) (s : state)
  : Z * state * list call :=
  if click_registered s then
    (MOUSE_TURBO_CLICK_PERIOD / 2,
     State (turbo_enabled s) (click_token s) false,
     [unregister_code16 (MOUSE_TURBO_CLICK_KEY F)])%Z
  else
    (MOUSE_TURBO_CLICK_PERIOD / 2,
     State (turbo_enabled s) (click_token s) true,
     [register_code16 (MOUSE_TURBO_CLICK_KEY F)])%Z.

Definition turbo_click_start (s : state) : state * list call :=
  if (click_token s =? INVALID_DEFERRED_TOKEN F)%Z then
    let '(next_delay_ms, s1, out) := turbo_click_callback 0 s in
    (State (turbo_enabled s1) (defer_exec F next_delay_ms) (click_registered s1),
     out ++ [defer_exec_call next_delay_ms])
  else (s, []).

Definition turbo_click_stop (s : state) : state * list call :=
  if negb (click_token s =? INVALID_DEFERRED_TOKEN F)%Z then
    if click_registered s then
      (State (turbo_enabled s) (INVALID_DEFERRED_TOKEN F) false,
       [cancel_deferred_exec (click_token s);
        unregister_code16 (MOUSE_TURBO_CLICK_KEY F)])
    else
      (State (turbo_enabled s) (INVALID_DEFERRED_TOKEN F) (click_registered s),
       [cancel_deferred_exec (click_token s)])
  else (s, []).

Definition process_mouse_turbo_click (keycode : Z) (record : keyrecord_t)
    (turbo_click_keycode : Z) (s : state) : bool * state * list call :=
  if (keycode =? turbo_click_keycode)%Z then
    if pressed (event record) then
      let s1 := State (negb (turbo_enabled s)) (click_token s) (click_registered s) in
      let '(s2, out) :=
        if turbo_enabled s1 then turbo_click_start s1 else turbo_click_stop s1 in
      (false, s2, out)
    else (false, s, [])
  else (true, s, []).
End Handler.
End MouseTurboClick.

(** ** Vocabulary of the statements *)

(** The six case labels of the [switch]. *)
Definition control_keycodes (K : keymap) : list Z :=
  [QK_KEY_CANCELLATION_ON K; QK_KEY_CANCELLATION_OFF K;
   QK_KEY_CANCELLATION_TOGGLE K; QK_KEY_CANCELLATION_RECOVERY_ON K;
   QK_KEY_CANCELLATION_RECOVERY_OFF K; QK_KEY_CANCELLATION_RECOVERY_TOGGLE K].

(** A keycode whose events reach the cancellation algorithm whenever
    cancellation is enabled: not a control keycode, basic, and let through by
    the user hook on either edge. *)
Definition passes_filter (K : keymap) (keycode : Z) : Prop :=
  (keycode ∉ control_keycodes K) ∧
  IS_BASIC_KEYCODE K keycode = true ∧
  ∀ record, process_key_cancellation_user K keycode record = true.

(** The engine touched neither of its arrays nor the count. *)
Definition same_buffers (s s' : engine) : Prop :=
  buffer_keyreports s' = buffer_keyreports s ∧
  buffer_keyreport_count s' = buffer_keyreport_count s ∧
  buffer_keyreports_temp s' = buffer_keyreports_temp s.

(** How a state [s'] reached while scanning relates to the state [s] the scan
    started from, for scratch positions from [j] upwards: only the scratch
    array may differ, and there only by entries overwritten with 0, all of
    them below [j]. *)
Record scan_frame (j : nat) (s s' : engine) : Prop := ScanFrame {
  frame_buffer : buffer_keyreports s' = buffer_keyreports s;
  frame_count : buffer_keyreport_count s' = buffer_keyreport_count s;
  frame_config : keymap_config s' = keymap_config s;
  frame_cleared : ∀ i, get (buffer_keyreports_temp s') i = get (buffer_keyreports_temp s) i ∨
                       get (buffer_keyreports_temp s') i = 0%Z;
  frame_kept : ∀ i, j ≤ i →
                 get (buffer_keyreports_temp s') i = get (buffer_keyreports_temp s) i
}.

(** No keycode other than the empty marker 0 occurs twice among the first
    [n] entries of an array. *)
Definition once (t : list Z) (n : nat) : Prop :=
  ∀ i i', i < n → i' < n → get t i = get t i' → get t i ≠ 0%Z → i = i'.

(** The engine runs with both flags on and its hold buffer holds exactly the
    keycodes [l], oldest first. *)
Definition tracking (s : engine) (l : list Z) : Prop :=
  buffer_ok s ∧ held s = l ∧
  cancellation_flag s = true ∧ recovery_flag s = true.

(** What the handler returns for an event the [switch] takes: false, with
    the state and the calls of the mode operation. *)
Definition handled (r : engine * list host_action)
  : bool * engine * list host_action :=
  (false, r.1, r.2).

Definition is_key_action (a : host_action) : bool :=
  match a with
  | add_key _ | del_key _ => true
  | eeconfig_update_keymap _ => false
  end.

(** A keymap to run the handler on: the basic keycodes are QMK's range
    [0x00 .. 0xFF], the user hook is the default one, and the control
    keycodes are six distinct keycodes above the basic range. *)
Definition demo_keymap (table : list key_cancellation_t) : keymap :=
  Keymap table (λ k, (0 <=? k) && (k <=? 255))%Z (λ _ _, true)
         31856 31857 31858 31859 31860 31861.

Definition KC_A : Z := 4.
Definition KC_C : Z := 6.
Definition KC_D : Z := 7.
Definition KC_S : Z := 22.
Definition KC_W : Z := 26.

Definition all_on : keymap_config_t.t := keymap_config_t.Make true true.

(** The scan as C3 words it: the [unpress] keycode is cleared
    wherever it occurs at or before the scanned position. *)
Definition clears_at_or_before (K : keymap) (s : engine) : Prop :=
  ∀ (j i : nat) (kc : key_cancellation_t),
    j < Z.to_nat (buffer_keyreport_count s) →
    kc ∈ key_cancellation_table K →
    press kc = get (buffer_keyreports_temp (release_scan K (snapshot s))) j →
    key_cancellation_is_key_in_buffer (unpress kc) s = true →
    i ≤ j →
    get (buffer_keyreports s) i = unpress kc →
    get (buffer_keyreports_temp (release_scan K (snapshot s))) i = 0%Z.

(** Tables for the examples. *)
Definition one_way : keymap :=
  demo_keymap [KeyCancellation KC_A KC_D].

Definition two_way : keymap :=
  demo_keymap [KeyCancellation KC_A KC_D; KeyCancellation KC_D KC_A].

Definition three_keys : keymap :=
  demo_keymap [KeyCancellation KC_A KC_D; KeyCancellation KC_C KC_D;
               KeyCancellation KC_D KC_A].

Definition self_pair : keymap :=
  demo_keymap [KeyCancellation KC_A KC_A].

(** The keymap [K] with a user hook that accepts presses and rejects
    releases. *)
Definition presses_only (K : keymap) : keymap :=
  Keymap (key_cancellation_table K) (IS_BASIC_KEYCODE K)
         (λ _ record, pressed (event record))
         (QK_KEY_CANCELLATION_ON K) (QK_KEY_CANCELLATION_OFF K)
         (QK_KEY_CANCELLATION_TOGGLE K) (QK_KEY_CANCELLATION_RECOVERY_ON K)
         (QK_KEY_CANCELLATION_RECOVERY_OFF K)
         (QK_KEY_CANCELLATION_RECOVERY_TOGGLE K).

(** The engine after the given transitions, from power-on with both flags
    set. *)
Definition after (K : keymap) (evs : list (Z * keyrecord_t)) : engine :=
  (process_all K evs (power_on all_on)).1.

(** ** Vocabulary of the further statements *)

(** The keycode an [add_key] or [del_key] call names. *)
Definition call_keycode (a : host_action) : option Z :=
  match a with
  | add_key k | del_key k => Some k
  | eeconfig_update_keymap _ => None
  end.

(** The six mode operations, in the order of the [switch]. *)
Definition mode_operations : list (engine → engine * list host_action) :=
  [key_cancellation_enable; key_cancellation_disable; key_cancellation_toggle;
   key_cancellation_recovery_enable; key_cancellation_recovery_disable;
   key_cancellation_recovery_toggle].

(** Two states agree on the hold buffer, its count and the configuration
    (the scratch array may differ). *)
Definition same_buffer_and_config (s s' : engine) : Prop :=
  buffer_keyreports s' = buffer_keyreports s ∧
  buffer_keyreport_count s' = buffer_keyreport_count s ∧
  keymap_config s' = keymap_config s.

(** The entries of the scratch array [t] that differ from the snapshot [t0]
    are accounted for by the table: such an entry held the [unpress] keycode
    of a table entry whose [press] keycode is the snapshot's keycode at a
    later position below [n], or is the empty marker 0. *)
Definition justified (K : keymap) (n : nat) (t0 t : list Z) : Prop :=
  ∀ i, get t i = get t0 i ∨
       ∃ kc j, kc ∈ key_cancellation_table K ∧ unpress kc = get t0 i ∧
               i < j < n ∧ (press kc = get t0 j ∨ press kc = 0%Z).

(** The well-formed hold buffers all of whose keycodes are [press] keycodes
    of the table and basic. *)
Definition tracks_listed_keys (K : keymap) (s : engine) : Prop :=
  buffer_ok s ∧
  ∀ k, k ∈ held s →
    key_cancellation_is_key_in_press_list K k = true ∧
    IS_BASIC_KEYCODE K k = true.

(** Vocabulary for mouse turbo click. *)

(** Registrations minus unregistrations among the calls. *)
Definition net_registrations (out : list MouseTurboClick.call) : Z :=
  foldr (λ c n,
           match c with
           | MouseTurboClick.register_code16 _ => n + 1
           | MouseTurboClick.unregister_code16 _ => n - 1
           | _ => n
           end)%Z 0%Z out.

(** The statics agree with each other: a callback is scheduled exactly
    while turbo click is on, and the click key is not registered while it
    is off. *)
Definition turbo_consistent (F : MouseTurboClick.firmware)
    (s : MouseTurboClick.state) : Prop :=
  (MouseTurboClick.turbo_enabled s = true ↔
   MouseTurboClick.click_token s ≠ MouseTurboClick.INVALID_DEFERRED_TOKEN F) ∧
  (MouseTurboClick.turbo_enabled s = false →
   MouseTurboClick.click_registered s = false).

(** The statics after a sequence of key events, all handled with the same
    [turbo_click_keycode]. *)
Definition turbo_run (F : MouseTurboClick.firmware) (turbo_click_keycode : Z)
    (evs : list (Z * keyrecord_t)) (s : MouseTurboClick.state)
  : MouseTurboClick.state :=
  foldl (λ s ev,
           (MouseTurboClick.process_mouse_turbo_click F ev.1 ev.2
              turbo_click_keycode s).1.2)
        s evs.

(** The presses of [turbo_click_keycode] among the events. *)
Definition turbo_presses (turbo_click_keycode : Z)
    (evs : list (Z * keyrecord_t)) : nat :=
  length (filter (λ ev, ev.1 = turbo_click_keycode ∧ pressed (event ev.2) = true) evs).

(** Firmware parameters for the examples: the click key is [KC_MS_BTN1],
    the invalid token is 0, and [defer_exec] hands out the given token. *)
Definition demo_firmware (token : Z) : MouseTurboClick.firmware :=
  MouseTurboClick.Firmware 209 0 (λ _, token).

(** ** Vocabulary of the no-double-hold statement *)

(** The distinct [press] keycodes of the table. *)
Definition press_keycodes (K : keymap) : list Z :=
  remove_dups (press <$> key_cancellation_table K).

(** Whether the key [a] is physically held after an event, given whether it
    was before: its own events decide, any other event changes nothing. *)
Definition holds_after (a : Z) (held_before : bool) (ev : Z * keyrecord_t) : bool :=
  if (ev.1 =? a)%Z then pressed (event ev.2) else held_before.

(** An event that is not a press of a control keycode. *)
Definition no_control_press (K : keymap) (ev : Z * keyrecord_t) : Prop :=
  pressed (event ev.2) = true → ev.1 ∉ control_keycodes K.

(** A sequence of events in which [b] is not pressed while [a] is
    physically held. *)
Fixpoint never_pressed_while_held (a b : Z) (held_a : bool)
    (evs : list (Z * keyrecord_t)) : Prop :=
  match evs with
  | [] => True
  | ev :: evs' =>
      (pressed (event ev.2) = true → held_a = true → ev.1 ≠ b) ∧
      never_pressed_while_held a b (holds_after a held_a ev) evs'
  end.

(** The setting of the no-double-hold statement: an entry making [a] cancel
    [b], two distinct keycodes, [b] not the empty marker, [a] reaching the
    algorithm on both edges, and a table whose [press] keycodes all fit in
    the hold buffer. *)
Definition cancels (K : keymap) (a b : Z) : Prop :=
  KeyCancellation a b ∈ key_cancellation_table K ∧
  a ≠ b ∧ b ≠ 0%Z ∧ passes_filter K a ∧
  length (press_keycodes K) ≤ 10.

(** What holds of the engine and the host report along such a sequence:
    cancellation is on, the buffer holds listed keys only, with recovery on
    [a] is in the buffer exactly while it is held, [b] is nowhere behind
    [a] in the buffer, the host holds [a] only while it is held, a [b] the
    host holds while [a] is held is in the buffer, and the host does not
    hold [a] and [b] together. *)
Record guarded (K : keymap) (a b : Z) (held_a : bool)
    (s : engine) (h : gset Z) : Prop := Guarded {
  guard_on : cancellation_flag s = true;
  guard_listed : tracks_listed_keys K s;
  guard_buffer : recovery_flag s = true → (a ∈ held s ↔ held_a = true);
  guard_order : ∀ l1 l2, held s = l1 ++ a :: l2 → b ∉ l2;
  guard_host : a ∈ h → held_a = true;
  guard_tracked : recovery_flag s = true → held_a = true → b ∈ h → b ∈ held s;
  guard_apart : a ∈ h → b ∉ h
}.

(** What holds along any sequence when each of [a] and [b] cancels the
    other: cancellation is on, the buffer holds listed keys only, with
    recovery on a key of the two that the host holds is in the buffer, and
    the host does not hold the two together. *)
Record guarded_both (K : keymap) (a b : Z) (s : engine) (h : gset Z) : Prop :=
  GuardedBoth {
  both_on : cancellation_flag s = true;
  both_listed : tracks_listed_keys K s;
  both_first : recovery_flag s = true → a ∈ h → a ∈ held s;
  both_second : recovery_flag s = true → b ∈ h → b ∈ held s;
  both_apart : a ∈ h → b ∉ h
}.

(** Settings that miss one condition of the no-double-hold statement. *)

(** Twelve [press] keycodes, more than the hold buffer takes. *)
Definition crowded : keymap :=
  demo_keymap
    ([KeyCancellation KC_A KC_D; KeyCancellation KC_D KC_A] ++
     ((λ k, KeyCancellation k 200) <$> [30; 31; 32; 33; 34; 35; 36; 37; 38; 39]%Z)).

(** A cancels the keycode 0. *)
Definition cancels_nothing : keymap :=
  demo_keymap [KeyCancellation KC_A 0; KeyCancellation 0 KC_A].

(** A cancels D, with D tracked through an entry of its own. *)
Definition chained : keymap :=
  demo_keymap [KeyCancellation KC_A KC_D; KeyCancellation KC_D KC_W].

(** The keymap [K] with a user hook that rejects the releases of [a] and
    accepts every other event. *)
Definition keeps (K : keymap) (a : Z) : keymap :=
  Keymap (key_cancellation_table K) (IS_BASIC_KEYCODE K)
         (λ k record, pressed (event record) || negb (k =? a)%Z)
         (QK_KEY_CANCELLATION_ON K) (QK_KEY_CANCELLATION_OFF K)
         (QK_KEY_CANCELLATION_TOGGLE K) (QK_KEY_CANCELLATION_RECOVERY_ON K)
         (QK_KEY_CANCELLATION_RECOVERY_OFF K)
         (QK_KEY_CANCELLATION_RECOVERY_TOGGLE K).


(** The keymap [K] with a user hook that rejects every event of [a] and
    accepts every other event. *)
Definition ignores (K : keymap) (a : Z) : keymap :=
  Keymap (key_cancellation_table K) (IS_BASIC_KEYCODE K)
         (λ k _, negb (k =? a)%Z)
         (QK_KEY_CANCELLATION_ON K) (QK_KEY_CANCELLATION_OFF K)
         (QK_KEY_CANCELLATION_TOGGLE K) (QK_KEY_CANCELLATION_RECOVERY_ON K)
         (QK_KEY_CANCELLATION_RECOVERY_OFF K)
         (QK_KEY_CANCELLATION_RECOVERY_TOGGLE K).
(** * Facts about the hold buffer *)

Lemma get_lookup (a : list Z) (i : nat) (x : Z) : a !! i = Some x → get a i = x.
Proof. unfold get. by intros ->. Qed.

Lemma lookup_get (a : list Z) (i : nat) : i < length a → a !! i = Some (get a i).
Proof.
  intros Hi. unfold get.
  destruct (lookup_lt_is_Some_2 a i Hi) as [x ->]. done.
Qed.

Lemma get_insert_eq (a : list Z) (i : nat) (x : Z) :
  i < length a → get (<[i := x]> a) i = x.
Proof. intros Hi. apply get_lookup. by apply list_lookup_insert_eq. Qed.

Lemma get_insert_ne (a : list Z) (i j : nat) (x : Z) :
  i ≠ j → get (<[i := x]> a) j = get a j.
Proof. intros Hne. unfold get. by rewrite list_lookup_insert_ne. Qed.

Lemma find_seq_Some (f : nat → bool) (n a i : nat) :
  find f (seq a n) = Some i →
  a ≤ i < a + n ∧ f i = true ∧ ∀ i', a ≤ i' < i → f i' = false.
Proof.
  revert a. induction n as [|n IH]; intros a; [done|].
  simpl. destruct (f a) eqn:Hfa.
  - intros [= <-]. split; [lia|]. split; [done|]. intros i' Hi'. lia.
  - intros Hfind. destruct (IH _ Hfind) as (Hi & Hf & Hfirst).
    split; [lia|]. split; [done|]. intros i' Hi'.
    destruct (decide (i' = a)) as [->|Hne]; [done|]. apply Hfirst. lia.
Qed.

Lemma find_upto_Some (f : nat → bool) (n i : nat) :
  find f (seq 0 n) = Some i →
  i < n ∧ f i = true ∧ ∀ i', i' < i → f i' = false.
Proof.
  intros (Hi & Hf & Hfirst)%find_seq_Some.
  split; [lia|]. split; [done|]. intros i' Hi'. apply Hfirst. lia.
Qed.

Lemma find_upto_None (f : nat → bool) (n : nat) :
  find f (seq 0 n) = None → ∀ i, i < n → f i = false.
Proof.
  intros Hfind i Hi. eapply (find_none f _ Hfind). apply in_seq. lia.
Qed.

Lemma existsb_upto (f : nat → bool) (n : nat) :
  existsb f (seq 0 n) = true ↔ ∃ i, i < n ∧ f i = true.
Proof.
  rewrite existsb_exists. split.
  - intros (i & Hi%in_seq & Hf). exists i. split; [lia | done].
  - intros (i & Hi & Hf). exists i. split; [apply in_seq; lia | done].
Qed.

Lemma get_take (a : list Z) (n i : nat) : i < n → get (take n a) i = get a i.
Proof. intros Hi. unfold get. by rewrite lookup_take_lt. Qed.

Lemma elem_of_held (k : Z) (s : engine) :
  Z.to_nat (buffer_keyreport_count s) ≤ length (buffer_keyreports s) →
  k ∈ held s ↔
  ∃ i, i < Z.to_nat (buffer_keyreport_count s) ∧ get (buffer_keyreports s) i = k.
Proof.
  intros Hlen. unfold held. rewrite list_elem_of_lookup. split.
  - intros (i & Hi). pose proof (lookup_lt_Some _ _ _ Hi) as Hlt.
    rewrite length_take in Hlt. exists i. split; [lia|].
    rewrite lookup_take_lt in Hi by lia. by apply get_lookup.
  - intros (i & Hi & <-). exists i.
    rewrite lookup_take_lt by lia. apply lookup_get. lia.
Qed.

(** The search agrees with membership in the logical contents. *)
Lemma is_key_in_buffer_held (k : Z) (s : engine) :
  Z.to_nat (buffer_keyreport_count s) ≤ length (buffer_keyreports s) →
  key_cancellation_is_key_in_buffer k s = true ↔ k ∈ held s.
Proof.
  intros Hlen. unfold key_cancellation_is_key_in_buffer, upto.
  rewrite existsb_upto, elem_of_held by done.
  split; intros (i & Hi & Hk); exists i; (split; [done|]); lia.
Qed.

Lemma is_key_in_buffer_false (k : Z) (s : engine) :
  Z.to_nat (buffer_keyreport_count s) ≤ length (buffer_keyreports s) →
  key_cancellation_is_key_in_buffer k s = false ↔ k ∉ held s.
Proof.
  intros Hlen. rewrite <- is_key_in_buffer_held by done.
  destruct (key_cancellation_is_key_in_buffer k s); naive_solver.
Qed.

(** What the shifting loop leaves at each index. *)
Lemma shift_loop_lookup (b : list Z) (i n p : nat) :
  i + n < length b →
  foldl (λ b j, <[j := get b (j + 1)]> b) b (seq i n) !! p =
  if decide (i ≤ p < i + n) then b !! (p + 1) else b !! p.
Proof.
  revert p. induction n as [|n IH]; intros p Hlen.
  - simpl. case_decide; [lia | done].
  - rewrite seq_S, foldl_app. simpl.
    set (b' := foldl _ b (seq i n)) in *.
    assert (length b' = length b) as Hlen'.
    { unfold b'. clear. generalize (seq i n). intros js. revert b.
      induction js as [|j js IHjs]; intros b; [done|].
      simpl. rewrite IHjs. apply length_insert. }
    destruct (decide (p = i + n)) as [->|Hne].
    + rewrite list_lookup_insert_eq by lia.
      rewrite decide_True by lia.
      unfold get. rewrite IH by lia. rewrite decide_False by lia.
      destruct (lookup_lt_is_Some_2 b (i + n + 1)) as [x ->]; [lia | done].
    + rewrite list_lookup_insert_ne by lia. rewrite IH by lia.
      repeat case_decide; try lia; done.
Qed.

Lemma shift_loop_length (b : list Z) (js : list nat) :
  length (foldl (λ b j, <[j := get b (j + 1)]> b) b js) = length b.
Proof.
  revert b. induction js as [|j js IH]; intros b; [done|].
  simpl. rewrite IH. apply length_insert.
Qed.

Lemma shift_left_length (b : list Z) (i : nat) (count : Z) :
  length (shift_left b i count) = length b.
Proof. apply shift_loop_length. Qed.

(** On the counted entries the shifting loop is the removal of index [i]. *)
Lemma shift_left_delete (b : list Z) (i : nat) (count : Z) :
  i < Z.to_nat count ≤ length b →
  take (Z.to_nat (count - 1)) (shift_left b i count) =
  delete i (take (Z.to_nat count) b).
Proof.
  intros Hi. apply list_eq. intros p. unfold shift_left.
  destruct (decide (p < Z.to_nat (count - 1))) as [Hp|Hp].
  - rewrite lookup_take_lt by done.
    rewrite shift_loop_lookup by lia.
    destruct (decide (p < i)).
    + rewrite decide_False by lia.
      rewrite list_lookup_delete_lt by done. rewrite lookup_take_lt by lia. done.
    + rewrite decide_True by lia.
      rewrite list_lookup_delete_ge by lia. rewrite lookup_take_lt by lia.
      f_equal. lia.
  - rewrite lookup_take_ge by lia. symmetry. apply lookup_ge_None.
    rewrite length_delete.
    + rewrite length_take. lia.
    + apply lookup_lt_is_Some. rewrite length_take. lia.
Qed.

Lemma add_key_buffer_ok (k : Z) (s : engine) :
  buffer_ok s → buffer_ok (add_key_buffer k s).
Proof.
  intros [Hlen Hcount Hnodup]. unfold add_key_buffer, KEYREPORT_BUFFER_SIZE in *.
  destruct (key_cancellation_is_key_in_buffer k s) eqn:Hin; [by constructor|].
  destruct (Z.leb_spec 10 (buffer_keyreport_count s)); [by constructor|].
  apply is_key_in_buffer_false in Hin; [|lia].
  constructor; simpl; unfold KEYREPORT_BUFFER_SIZE.
  - by rewrite length_insert.
  - lia.
  - unfold held in *. simpl.
    replace (Z.to_nat (buffer_keyreport_count s + 1))
      with (S (Z.to_nat (buffer_keyreport_count s))) by lia.
    rewrite (take_S_r _ _ k) by (apply list_lookup_insert_eq; lia).
    rewrite take_insert_ge by lia.
    apply NoDup_app. split; [done|]. split; [|apply NoDup_singleton].
    intros x Hx ->%list_elem_of_singleton. done.
Qed.

Lemma del_key_buffer_ok (k : Z) (s : engine) :
  buffer_ok s → buffer_ok (del_key_buffer k s).
Proof.
  intros [Hlen Hcount Hnodup]. unfold del_key_buffer, upto, KEYREPORT_BUFFER_SIZE in *.
  destruct (find _ _) as [i|] eqn:Hfind; [|by constructor].
  apply find_upto_Some in Hfind as (Hi & _ & _).
  constructor; simpl; unfold KEYREPORT_BUFFER_SIZE.
  - by rewrite shift_left_length.
  - lia.
  - unfold held in *. simpl. rewrite shift_left_delete by lia.
    eapply sublist_NoDup; [done | apply sublist_delete].
Qed.

Lemma power_on_ok (cfg : keymap_config_t.t) : buffer_ok (power_on cfg).
Proof. constructor; simpl; [done | unfold KEYREPORT_BUFFER_SIZE; lia | constructor]. Qed.

Lemma run_ops_ok (ops : list buffer_op) (s : engine) :
  buffer_ok s → buffer_ok (run_ops ops s).
Proof.
  unfold run_ops. revert s. induction ops as [|o ops IH]; intros s Hs; [done|].
  simpl. apply IH. destruct o; [by apply add_key_buffer_ok | by apply del_key_buffer_ok].
Qed.

Lemma add_key_buffer_present (k : Z) (s : engine) :
  key_cancellation_is_key_in_buffer k s = true → add_key_buffer k s = s.
Proof. intros Hin. unfold add_key_buffer. by rewrite Hin. Qed.

Lemma add_key_buffer_full (k : Z) (s : engine) :
  (KEYREPORT_BUFFER_SIZE <= buffer_keyreport_count s)%Z → add_key_buffer k s = s.
Proof.
  intros Hfull. unfold add_key_buffer.
  destruct (key_cancellation_is_key_in_buffer k s); [done|].
  by destruct (Z.leb_spec KEYREPORT_BUFFER_SIZE (buffer_keyreport_count s)); [|lia].
Qed.

(** C6. Starting from the power-on state, after any sequence of
    [add_key_buffer] and [del_key_buffer] calls: no keycode occurs twice among
    the counted entries of the hold buffer, the count is between 0 and the
    capacity of 10 (and the array still has its ten elements), adding a
    keycode that is already present returns the state unchanged, and adding
    to a full buffer returns the state unchanged, so that no entry and not
    the count is modified. *)
Theorem hold_buffer_invariant (cfg : keymap_config_t.t) (ops : list buffer_op) :
  let s := run_ops ops (power_on cfg) in
  NoDup (held s) ∧
  (0 <= buffer_keyreport_count s <= KEYREPORT_BUFFER_SIZE)%Z ∧
  length (buffer_keyreports s) = 10 ∧
  (∀ k, k ∈ held s → run_ops [Add k] s = s) ∧
  (∀ k, buffer_keyreport_count s = KEYREPORT_BUFFER_SIZE →
        run_ops [Add k] s = s).
Proof.
  intros s.
  destruct (run_ops_ok ops (power_on cfg) (power_on_ok cfg)) as [Hlen Hcount Hnodup].
  fold s in Hlen, Hcount, Hnodup.
  split; [done|]. split; [done|]. split; [done|]. split.
  - intros k Hk. apply add_key_buffer_present.
    apply is_key_in_buffer_held; [unfold KEYREPORT_BUFFER_SIZE in *; lia | done].
  - intros k Hfull. apply add_key_buffer_full. lia.
Qed.

(** * Facts about the process handler *)

Section EngineFacts.
Context (K : keymap).

Lemma control_operation_None (keycode : Z) :
  keycode ∉ control_keycodes K → control_operation K keycode = None.
Proof.
  unfold control_keycodes, control_operation. intros Hk.
  repeat match goal with
         | |- context [(keycode =? ?c)%Z] =>
             destruct (Z.eqb_spec keycode c) as [->|_]; [set_solver|]
         end.
  done.
Qed.

(** What every branch after the [switch] has in common when the event is
    not taken by it. *)
Lemma process_not_control (keycode : Z) (record : keyrecord_t) (s : engine) :
  (pressed (event record) = true → keycode ∉ control_keycodes K) →
  process_key_cancellation K keycode record s =
  if negb (cancellation_flag s) then (true, s, [])
  else if negb (IS_BASIC_KEYCODE K keycode) then (true, s, [])
  else if negb (process_key_cancellation_user K keycode record) then (true, s, [])
  else if negb (recovery_flag s) && negb (pressed (event record)) then (true, s, [])
  else
    let s1 := if recovery_flag s then track_key K keycode record s else s in
    if recovery_flag s && (buffer_keyreport_count s1 =? 0)%Z then (true, s1, [])
    else
      let s2 := snapshot s1 in
      if pressed (event record) then (true, s2, press_path K keycode)
      else
        let s3 := release_scan K s2 in
        (true, s3, release_compare s3).
Proof.
  intros Hk. unfold process_key_cancellation.
  destruct (pressed (event record)); [|done].
  by rewrite control_operation_None by auto.
Qed.

(** C8. For an event (press or release) whose keycode is none of the six
    control keycodes, when the cancellation flag is off the handler
    returns true, the engine state is the one it was called with (hold
    buffer, count, scratch array and configuration), and no call is made. *)
Theorem disabled_is_pass_through (keycode : Z) (record : keyrecord_t) (s : engine) :
  keycode ∉ control_keycodes K →
  cancellation_flag s = false →
  process_key_cancellation K keycode record s = (true, s, []).
Proof.
  intros Hk Hoff. rewrite process_not_control by done. by rewrite Hoff.
Qed.

(** C9. For a release event, when the recovery flag is off the handler
    returns true, the engine state is the one it was called with (so
    entries left in the hold buffer stay there) and no call is made,
    whatever the cancellation flag, the keycode and the buffer are. *)
Theorem release_without_recovery_is_inert
    (keycode : Z) (record : keyrecord_t) (s : engine) :
  pressed (event record) = false →
  recovery_flag s = false →
  process_key_cancellation K keycode record s = (true, s, []).
Proof.
  intros Hrel Hoff. rewrite process_not_control by (rewrite Hrel; done).
  rewrite Hoff, Hrel. simpl.
  destruct (cancellation_flag s); [|done]. simpl.
  destruct (IS_BASIC_KEYCODE K keycode); [|done]. simpl.
  by destruct (process_key_cancellation_user K keycode record).
Qed.

Lemma control_keycodes_distinct :
  NoDup (control_keycodes K) →
  control_operation K (QK_KEY_CANCELLATION_ON K) = Some key_cancellation_enable ∧
  control_operation K (QK_KEY_CANCELLATION_OFF K) = Some key_cancellation_disable ∧
  control_operation K (QK_KEY_CANCELLATION_TOGGLE K) = Some key_cancellation_toggle ∧
  control_operation K (QK_KEY_CANCELLATION_RECOVERY_ON K) =
    Some key_cancellation_recovery_enable ∧
  control_operation K (QK_KEY_CANCELLATION_RECOVERY_OFF K) =
    Some key_cancellation_recovery_disable ∧
  control_operation K (QK_KEY_CANCELLATION_RECOVERY_TOGGLE K) =
    Some key_cancellation_recovery_toggle.
Proof.
  unfold control_keycodes, control_operation. intros Hnd.
  rewrite !NoDup_cons, !not_elem_of_cons in Hnd. destruct_and!.
  repeat split;
    repeat match goal with
           | |- context [(?a =? ?b)%Z] =>
               destruct (Z.eqb_spec a b); [try done; congruence|]
           end; done.
Qed.

Lemma control_operation_frame (keycode : Z) operation (s : engine) :
  control_operation K keycode = Some operation →
  same_buffers s (operation s).1 ∧
  forallb is_key_action (operation s).2 = false ∧
  length (operation s).2 = 1.
Proof.
  unfold control_operation. intros Hop.
  repeat match type of Hop with
         | context [(keycode =? ?c)%Z] => destruct (keycode =? c)%Z
         end;
    try discriminate; injection Hop as <-; done.
Qed.

(** C7. The six control keycodes being distinct case labels and lying
    outside the basic keycodes: a press of each one returns false with
    exactly the state and the calls of its own mode operation; for a
    control keycode on either edge the hold buffer, its count and the
    scratch array are left as they were and neither [add_key] nor
    [del_key] is called; and a release of a control keycode returns true,
    changes nothing (so invokes no mode operation) and makes no call. *)
Theorem control_keycodes_are_isolated (s : engine) :
  NoDup (control_keycodes K) →
  (∀ k, k ∈ control_keycodes K → IS_BASIC_KEYCODE K k = false) →
  let on_press k := process_key_cancellation K k key_press s in
  on_press (QK_KEY_CANCELLATION_ON K) = handled (key_cancellation_enable s) ∧
  on_press (QK_KEY_CANCELLATION_OFF K) = handled (key_cancellation_disable s) ∧
  on_press (QK_KEY_CANCELLATION_TOGGLE K) = handled (key_cancellation_toggle s) ∧
  on_press (QK_KEY_CANCELLATION_RECOVERY_ON K) =
    handled (key_cancellation_recovery_enable s) ∧
  on_press (QK_KEY_CANCELLATION_RECOVERY_OFF K) =
    handled (key_cancellation_recovery_disable s) ∧
  on_press (QK_KEY_CANCELLATION_RECOVERY_TOGGLE K) =
    handled (key_cancellation_recovery_toggle s) ∧
  (∀ k record, k ∈ control_keycodes K →
     same_buffers s (process_key_cancellation K k record s).1.2 ∧
     filter (λ a, is_key_action a = true)
            (process_key_cancellation K k record s).2 = []) ∧
  (∀ k, k ∈ control_keycodes K →
     process_key_cancellation K k key_release s = (true, s, [])).
Proof.
  intros Hnd Hbasic on_press.
  destruct (control_keycodes_distinct Hnd) as (H1 & H2 & H3 & H4 & H5 & H6).
  assert (∀ k, k ∈ control_keycodes K →
            process_key_cancellation K k key_release s = (true, s, [])) as Hrel.
  { intros k Hk. rewrite process_not_control by done.
    destruct (cancellation_flag s); [|done]. simpl.
    by rewrite (Hbasic k Hk). }
  assert (∀ k operation, control_operation K k = Some operation →
            process_key_cancellation K k key_press s = handled (operation s))
    as Hpress.
  { intros k op Hop. unfold process_key_cancellation, handled. simpl.
    rewrite Hop. by destruct (op s). }
  unfold on_press.
  rewrite (Hpress _ _ H1), (Hpress _ _ H2), (Hpress _ _ H3),
    (Hpress _ _ H4), (Hpress _ _ H5), (Hpress _ _ H6).
  repeat (split; [done|]). split; [|done].
  intros k [[[]]] Hk.
  - assert (∃ operation, control_operation K k = Some operation) as [op Hop].
    { unfold control_keycodes in Hk. unfold control_operation.
      repeat match goal with
             | |- context [(k =? ?c)%Z] =>
                 destruct (Z.eqb_spec k c); [by eexists|]
             end.
      repeat (apply elem_of_cons in Hk as [?|Hk]; [done|]).
      by apply elem_of_nil in Hk. }
    fold key_press. rewrite (Hpress _ _ Hop). unfold handled. simpl.
    pose proof (control_operation_frame k op s Hop) as (Hsame & Hact & Hlen).
    split; [done|].
    destruct (op s).2 as [|a [|? ?]]; try done. simpl in *.
    rewrite andb_true_r in Hact.
    rewrite filter_cons_False by (rewrite Hact; done). done.
  - fold key_release. rewrite (Hrel k Hk). done.
Qed.

Lemma press_path_filter (keycode : Z) :
  press_path K keycode =
  (λ kc, del_key (unpress kc)) <$>
    filter (λ kc, press kc = keycode) (key_cancellation_table K).
Proof.
  unfold press_path. induction (key_cancellation_table K) as [|kc l IH]; [done|].
  simpl. rewrite IH. destruct (Z.eqb_spec keycode (press kc)) as [->|Hne].
  - by rewrite filter_cons_True.
  - by rewrite filter_cons_False by congruence.
Qed.

Lemma press_path_not_listed (keycode : Z) :
  key_cancellation_is_key_in_press_list K keycode = false →
  press_path K keycode = [].
Proof.
  unfold key_cancellation_is_key_in_press_list, press_path.
  induction (key_cancellation_table K) as [|kc l IH]; [done|].
  simpl. intros [Hkc Hl]%orb_false_elim. rewrite (IH Hl).
  rewrite Z.eqb_sym, Hkc. done.
Qed.

Lemma add_key_buffer_count_pos (k : Z) (s : engine) :
  (0 <= buffer_keyreport_count s)%Z →
  (0 < buffer_keyreport_count (add_key_buffer k s))%Z.
Proof.
  intros Hcount. unfold add_key_buffer, KEYREPORT_BUFFER_SIZE.
  destruct (key_cancellation_is_key_in_buffer k s) eqn:Hin.
  - unfold key_cancellation_is_key_in_buffer, upto in Hin.
    apply existsb_upto in Hin as (i & Hi & _). lia.
  - destruct (Z.leb_spec 10 (buffer_keyreport_count s)); simpl; lia.
Qed.

(** A press that reaches the algorithm runs the press path and is let
    through.  The user hook is asked about the press at hand only. *)
Lemma press_admitted_event (keycode : Z) (s : engine) :
  buffer_ok s →
  keycode ∉ control_keycodes K →
  IS_BASIC_KEYCODE K keycode = true →
  process_key_cancellation_user K keycode key_press = true →
  cancellation_flag s = true →
  ∃ s', process_key_cancellation K keycode key_press s =
        (true, s', press_path K keycode).
Proof.
  intros [_ Hcount _] Hctl Hbasic Hhook Hon.
  rewrite process_not_control by done.
  rewrite Hon, Hbasic, Hhook. simpl. rewrite andb_false_r.
  destruct (recovery_flag s); simpl; [|by eexists].
  unfold track_key. simpl.
  destruct (key_cancellation_is_key_in_press_list K keycode) eqn:Hlisted.
  - pose proof (add_key_buffer_count_pos keycode s) as Hpos.
    destruct (Z.eqb_spec (buffer_keyreport_count (add_key_buffer keycode s)) 0);
      [lia | by eexists].
  - rewrite (press_path_not_listed _ Hlisted).
    destruct (buffer_keyreport_count s =? 0)%Z; by eexists.
Qed.

Lemma press_admitted (keycode : Z) (s : engine) :
  buffer_ok s →
  passes_filter K keycode →
  cancellation_flag s = true →
  ∃ s', process_key_cancellation K keycode key_press s =
        (true, s', press_path K keycode).
Proof.
  intros Hok (Hctl & Hbasic & Hhook) Hon. by apply press_admitted_event.
Qed.

(** C5. For a press that passes the admission filter while cancellation is
    enabled, that is a press of a keycode that is not a control keycode and
    is basic, and that the user hook accepts (the hook is asked about this
    press only), from any state of the engine with a well-formed hold
    buffer: the handler returns true, and the calls it makes are exactly
    one [del_key] of the [unpress] keycode for each table entry whose
    [press] is the incoming keycode, in table order, whether or not that
    keycode is in the hold buffer. *)
Theorem press_path_cancels (keycode : Z) (s : engine) :
  buffer_ok s →
  keycode ∉ control_keycodes K →
  IS_BASIC_KEYCODE K keycode = true →
  process_key_cancellation_user K keycode key_press = true →
  cancellation_flag s = true →
  ∃ s',
    process_key_cancellation K keycode key_press s =
    (true, s',
     (λ kc, del_key (unpress kc)) <$>
       filter (λ kc, press kc = keycode) (key_cancellation_table K)).
Proof.
  intros Hok Hctl Hbasic Hhook Hon. rewrite <- press_path_filter.
  by apply press_admitted_event.
Qed.

(** ** The release-path scan *)

Lemma get_insert (t : list Z) (i j : nat) :
  get (<[i := 0%Z]> t) j = if decide (i = j) then 0%Z else get t j.
Proof.
  case_decide as Hij; [subst j | by apply get_insert_ne].
  destruct (decide (i < length t)); [by apply get_insert_eq|].
  unfold get. rewrite lookup_ge_None_2; [done|]. rewrite length_insert. lia.
Qed.

Lemma scan_frame_refl (j : nat) (s : engine) : scan_frame j s s.
Proof. constructor; auto. Qed.

Lemma scan_frame_trans (j : nat) (s1 s2 s3 : engine) :
  scan_frame j s1 s2 → scan_frame j s2 s3 → scan_frame j s1 s3.
Proof.
  intros [Hb1 Hc1 Hk1 Hz1 Hj1] [Hb2 Hc2 Hk2 Hz2 Hj2].
  constructor; try congruence.
  - intros i. destruct (Hz2 i) as [-> | ->]; [apply Hz1 | by right].
  - intros i Hi. by rewrite Hj2, Hj1.
Qed.

Lemma scan_frame_mono (j j' : nat) (s s' : engine) :
  j ≤ j' → scan_frame j s s' → scan_frame j' s s'.
Proof.
  intros Hle [Hb Hc Hk Hz Hj]. constructor; try done.
  intros i Hi. apply Hj. lia.
Qed.

Lemma scan_frame_once (j n : nat) (s s' : engine) :
  scan_frame j s s' →
  once (buffer_keyreports_temp s) n → once (buffer_keyreports_temp s') n.
Proof.
  intros [_ _ _ Hz _] Honce i i' Hi Hi' Heq Hnz.
  destruct (Hz i) as [Hzi|Hzi]; [|congruence].
  destruct (Hz i') as [Hzi'|Hzi']; [|congruence].
  apply Honce; congruence.
Qed.

Lemma scan_frame_zero (j i : nat) (s s' : engine) :
  scan_frame j s s' →
  get (buffer_keyreports_temp s) i = 0%Z → get (buffer_keyreports_temp s') i = 0%Z.
Proof. intros [_ _ _ Hz _] H0. destruct (Hz i); congruence. Qed.

Lemma scan_frame_in_buffer (j : nat) (k : Z) (s s' : engine) :
  scan_frame j s s' →
  key_cancellation_is_key_in_buffer k s' = key_cancellation_is_key_in_buffer k s.
Proof.
  intros [Hb Hc _ _ _]. unfold key_cancellation_is_key_in_buffer.
  by rewrite Hb, Hc.
Qed.

Lemma once_le (t : list Z) (n m : nat) : n ≤ m → once t m → once t n.
Proof. intros Hle Honce i i' Hi Hi'. apply Honce; lia. Qed.

Lemma del_key_buffer_temp_frame (k : Z) (e : nat) (s : engine) :
  scan_frame e s (del_key_buffer_temp k e s).
Proof.
  unfold del_key_buffer_temp.
  destruct (find _ _) as [i0|] eqn:Hfind; [|apply scan_frame_refl].
  apply find_upto_Some in Hfind as (Hi0 & _ & _).
  constructor; simpl; try done.
  - intros i. rewrite get_insert. case_decide; auto.
  - intros i Hi. rewrite get_insert. case_decide; [lia | done].
Qed.

Lemma del_key_buffer_temp_clears (k : Z) (e i : nat) (s : engine) :
  once (buffer_keyreports_temp s) e →
  i < e →
  get (buffer_keyreports_temp s) i = k →
  get (buffer_keyreports_temp (del_key_buffer_temp k e s)) i = 0%Z.
Proof.
  intros Honce Hi Hk. unfold del_key_buffer_temp.
  destruct (find _ _) as [i0|] eqn:Hfind.
  - apply find_upto_Some in Hfind as (Hi0 & Hk0%Z.eqb_eq & _).
    simpl. rewrite get_insert. case_decide as Hne; [done|].
    destruct (decide (k = 0%Z)) as [->|Hnz]; [done|].
    exfalso. apply Hne. apply Honce; congruence.
  - pose proof (find_upto_None _ _ Hfind i Hi) as Hno. simpl in Hno.
    apply Z.eqb_neq in Hno. done.
Qed.

Lemma scan_pair_frame (j : nat) (s : engine) (kc : key_cancellation_t) :
  scan_frame j s (scan_pair j s kc).
Proof.
  unfold scan_pair.
  destruct (_ =? _)%Z; [|apply scan_frame_refl].
  destruct (key_cancellation_is_key_in_buffer _ _); [|apply scan_frame_refl].
  apply del_key_buffer_temp_frame.
Qed.

Lemma scan_pairs_frame (j : nat) (l : list key_cancellation_t) (s : engine) :
  scan_frame j s (foldl (scan_pair j) s l).
Proof.
  revert s. induction l as [|kc l IH]; intros s; [apply scan_frame_refl|].
  simpl. eapply scan_frame_trans; [apply scan_pair_frame | apply IH].
Qed.

(** One pass over the table at scratch position [j] clears every earlier
    position that holds the [unpress] keycode of a matching entry. *)
Lemma scan_pairs_clears (j i : nat) (kc : key_cancellation_t)
    (l : list key_cancellation_t) (s : engine) :
  once (buffer_keyreports_temp s) j →
  kc ∈ l →
  press kc = get (buffer_keyreports_temp s) j →
  key_cancellation_is_key_in_buffer (unpress kc) s = true →
  i < j →
  get (buffer_keyreports_temp s) i = unpress kc ∨
    get (buffer_keyreports_temp s) i = 0%Z →
  get (buffer_keyreports_temp (foldl (scan_pair j) s l)) i = 0%Z.
Proof.
  revert s. induction l as [|kc0 l IH]; intros s Honce Hkc Hpress Hin Hi Hval.
  { by apply elem_of_nil in Hkc. }
  simpl. pose proof (scan_pair_frame j s kc0) as Hframe.
  destruct Hval as [Hval|Hval]; cycle 1.
  { eapply scan_frame_zero; [apply scan_pairs_frame|].
    by eapply scan_frame_zero. }
  apply elem_of_cons in Hkc as [ <- | Hkc ].
  - eapply scan_frame_zero; [apply scan_pairs_frame|].
    unfold scan_pair. rewrite Hpress, Z.eqb_refl, Hin.
    by apply del_key_buffer_temp_clears.
  - apply IH; try done.
    + by eapply scan_frame_once.
    + rewrite (frame_kept _ _ _ Hframe) by lia. done.
    + by rewrite (scan_frame_in_buffer _ _ _ _ Hframe).
    + destruct (frame_cleared _ _ _ Hframe i) as [-> | ->]; auto.
Qed.

Lemma release_scan_step (n : nat) (s : engine) :
  foldl (scan_position K) s (reverse (seq 0 (S n))) =
  foldl (scan_position K) (scan_position K s n) (reverse (seq 0 n)).
Proof. by rewrite seq_S, reverse_snoc. Qed.

Lemma scan_down_frame (n : nat) (s : engine) :
  scan_frame (pred n) s (foldl (scan_position K) s (reverse (seq 0 n))).
Proof.
  revert s. induction n as [|n IH]; intros s; [apply scan_frame_refl|].
  rewrite release_scan_step. simpl.
  apply (scan_frame_trans _ _ (scan_position K s n)).
  - apply scan_pairs_frame.
  - eapply scan_frame_mono; [|apply IH]. lia.
Qed.

Lemma scan_down_clears (n : nat) (s : engine) (j i : nat) (kc : key_cancellation_t) :
  once (buffer_keyreports_temp s) n →
  let s' := foldl (scan_position K) s (reverse (seq 0 n)) in
  j < n →
  kc ∈ key_cancellation_table K →
  press kc = get (buffer_keyreports_temp s') j →
  key_cancellation_is_key_in_buffer (unpress kc) s = true →
  i < j →
  get (buffer_keyreports_temp s) i = unpress kc ∨
    get (buffer_keyreports_temp s) i = 0%Z →
  get (buffer_keyreports_temp s') i = 0%Z.
Proof.
  revert s. induction n as [|n IH]; intros s Honce s' Hj Hkc Hpress Hin Hi Hval; [lia|].
  unfold s' in *. clear s'. rewrite release_scan_step in *.
  pose proof (scan_pairs_frame n (key_cancellation_table K) s) as Hframe.
  fold (scan_position K s n) in Hframe.
  pose proof (scan_down_frame n (scan_position K s n)) as Hrest.
  destruct (decide (j = n)) as [->|Hne].
  - eapply scan_frame_zero; [apply Hrest|].
    rewrite (frame_kept _ _ _ Hrest), (frame_kept _ _ _ Hframe) in Hpress by lia.
    apply (scan_pairs_clears n i kc); try done.
    eapply once_le; [|done]. lia.
  - apply IH; try done.
    + eapply scan_frame_once; [done|]. eapply once_le; [|done]. lia.
    + lia.
    + by rewrite (scan_frame_in_buffer _ _ _ _ Hframe).
    + destruct Hval as [Hval|Hval].
      * destruct (frame_cleared _ _ _ Hframe i) as [-> | ->]; auto.
      * right. by eapply scan_frame_zero.
Qed.

Lemma held_once (s : engine) :
  buffer_ok s → once (buffer_keyreports s) (Z.to_nat (buffer_keyreport_count s)).
Proof.
  intros [Hlen Hcount Hnodup] i i' Hi Hi' Heq _.
  unfold KEYREPORT_BUFFER_SIZE in *.
  eapply (NoDup_lookup _ _ _ _ Hnodup); unfold held.
  - rewrite lookup_take_lt by done. apply lookup_get. lia.
  - rewrite lookup_take_lt by done. rewrite Heq. apply lookup_get. lia.
Qed.

(** C3, as the code has it. In a release-path pass over a well-formed
    hold buffer (snapshot, then scan from the last entry down to position
    0): for every scratch position [j] below the count and every table
    entry whose [press] is the keycode at scratch position [j] and whose
    [unpress] keycode is in the hold buffer, every position strictly
    before [j] at which the snapshot held the [unpress] keycode holds the
    empty marker 0 when the scan ends.  Position [j] itself is outside the
    range that its own scan clears. *)
Theorem release_scan_clears_earlier (s : engine) (j i : nat) (kc : key_cancellation_t) :
  buffer_ok s →
  let s' := release_scan K (snapshot s) in
  j < Z.to_nat (buffer_keyreport_count s) →
  kc ∈ key_cancellation_table K →
  press kc = get (buffer_keyreports_temp s') j →
  key_cancellation_is_key_in_buffer (unpress kc) s = true →
  i < j →
  get (buffer_keyreports s) i = unpress kc →
  get (buffer_keyreports_temp s') i = 0%Z.
Proof.
  intros Hok s' Hj Hkc Hpress Hin Hi Hval.
  unfold s', release_scan, upto in *. simpl in *.
  apply (scan_down_clears _ (snapshot s) j i kc); simpl; auto.
  by apply held_once.
Qed.

(** ** The hold buffer along a run *)

Lemma held_length (s : engine) :
  buffer_ok s → length (held s) = Z.to_nat (buffer_keyreport_count s).
Proof.
  intros [Hlen Hcount _]. unfold held, KEYREPORT_BUFFER_SIZE in *.
  rewrite length_take. lia.
Qed.

Lemma get_held (s : engine) (i : nat) :
  i < Z.to_nat (buffer_keyreport_count s) →
  get (buffer_keyreports s) i = get (held s) i.
Proof. intros Hi. unfold held. by rewrite get_take. Qed.

Lemma add_key_buffer_held (k : Z) (s : engine) :
  buffer_ok s → k ∉ held s →
  (buffer_keyreport_count s < KEYREPORT_BUFFER_SIZE)%Z →
  held (add_key_buffer k s) = held s ++ [k] ∧
  buffer_keyreport_count (add_key_buffer k s) = (buffer_keyreport_count s + 1)%Z.
Proof.
  intros [Hlen Hcount _] Hk Hroom. unfold KEYREPORT_BUFFER_SIZE in *.
  apply is_key_in_buffer_false in Hk; [|lia].
  unfold add_key_buffer, KEYREPORT_BUFFER_SIZE. rewrite Hk.
  destruct (Z.leb_spec 10 (buffer_keyreport_count s)); [lia|].
  split; [|done]. unfold held. simpl.
  replace (Z.to_nat (buffer_keyreport_count s + 1))
    with (S (Z.to_nat (buffer_keyreport_count s))) by lia.
  rewrite (take_S_r _ _ k) by (apply list_lookup_insert_eq; lia).
  by rewrite take_insert_ge by lia.
Qed.

Lemma del_key_buffer_held (k : Z) (s : engine) (l1 l2 : list Z) :
  buffer_ok s → held s = l1 ++ k :: l2 → k ∉ l1 →
  held (del_key_buffer k s) = l1 ++ l2 ∧
  buffer_keyreport_count (del_key_buffer k s) = (buffer_keyreport_count s - 1)%Z.
Proof.
  intros Hok Hheld Hk. pose proof (held_length s Hok) as Hlen.
  destruct Hok as [Hblen Hcount _]. unfold KEYREPORT_BUFFER_SIZE in *.
  rewrite Hheld, length_app in Hlen. simpl in Hlen.
  assert (get (buffer_keyreports s) (length l1) = k) as Hat.
  { rewrite get_held by lia. rewrite Hheld. apply get_lookup.
    apply list_lookup_middle. done. }
  unfold del_key_buffer, upto.
  destruct (find _ _) as [i0|] eqn:Hfind.
  - apply find_upto_Some in Hfind as (Hi0 & Hk0%Z.eqb_eq & Hfirst).
    assert (i0 = length l1) as ->.
    { destruct (decide (i0 < length l1)) as [Hlt|Hge].
      - exfalso. apply Hk. rewrite get_held in Hk0 by lia.
        rewrite Hheld in Hk0. unfold get in Hk0.
        rewrite lookup_app_l in Hk0 by done.
        destruct (lookup_lt_is_Some_2 l1 i0 Hlt) as [x Hx].
        rewrite Hx in Hk0. simpl in Hk0. subst x.
        apply list_elem_of_lookup. eauto.
      - destruct (decide (i0 = length l1)) as [|Hne]; [done|].
        specialize (Hfirst (length l1)). simpl in Hfirst.
        rewrite Hat, Z.eqb_refl in Hfirst.
        assert (true = false) by (apply Hfirst; lia). done. }
    split; [|done]. unfold held in *. simpl.
    rewrite shift_left_delete by lia. rewrite Hheld. apply delete_middle.
  - pose proof (find_upto_None _ _ Hfind (length l1)) as Hno. simpl in Hno.
    rewrite Hat, Z.eqb_refl in Hno.
    assert (true = false) by (apply Hno; lia). done.
Qed.

Lemma snapshot_tracking (s : engine) (l : list Z) :
  tracking s l → tracking (snapshot s) l.
Proof.
  intros ([Hlen Hcount Hnodup] & Hheld & Hc & Hr).
  split; [by constructor | done].
Qed.

Lemma scan_frame_tracking (j : nat) (s s' : engine) (l : list Z) :
  scan_frame j s s' → tracking s l → tracking s' l.
Proof.
  intros [Hb Hn Hk _ _] ([Hlen Hcount Hnodup] & Hheld & Hc & Hr).
  unfold tracking, cancellation_flag, recovery_flag in *. rewrite Hk.
  assert (held s' = held s) as Hsame by (unfold held; by rewrite Hb, Hn).
  split; [|by rewrite Hsame].
  constructor; rewrite ?Hsame, ?Hb, ?Hn; done.
Qed.

Lemma release_scan_frame (s : engine) :
  scan_frame (pred (Z.to_nat (buffer_keyreport_count s))) s (release_scan K s).
Proof. apply scan_down_frame. Qed.

(** A press of a listed keycode that is not yet in a hold buffer with room
    left: appended, snapshot taken, press path run. *)
Lemma press_step (l : list Z) (k : Z) (s : engine) :
  tracking s l → passes_filter K k →
  key_cancellation_is_key_in_press_list K k = true →
  k ∉ l → length l < 10 →
  ∃ s', process_key_cancellation K k key_press s = (true, s', press_path K k) ∧
        tracking s' (l ++ [k]).
Proof.
  intros (Hok & Hheld & Hc & Hr) (Hctl & Hbasic & Hhook) Hlisted Hk Hroom.
  rewrite process_not_control by done.
  rewrite Hc, Hbasic, Hhook, Hr. simpl.
  unfold track_key. rewrite Hlisted. simpl.
  pose proof (held_length s Hok) as Hlen. rewrite Hheld in Hlen.
  destruct (add_key_buffer_held k s Hok) as (Hheld' & Hcount');
    [by rewrite Hheld | unfold KEYREPORT_BUFFER_SIZE; lia |].
  destruct Hok as [Hblen Hcount Hnodup].
  destruct (Z.eqb_spec (buffer_keyreport_count (add_key_buffer k s)) 0); [lia|].
  eexists. split; [done|]. apply snapshot_tracking.
  split; [by apply add_key_buffer_ok|]. split; [by rewrite Hheld', Hheld|].
  unfold add_key_buffer.
  destruct (key_cancellation_is_key_in_buffer k s); [done|].
  by destruct (_ <=? _)%Z.
Qed.

(** A release of a listed keycode that is in the hold buffer and not the
    only entry: removed, snapshot taken, scan and comparison run. *)
Lemma release_step (l1 l2 : list Z) (k : Z) (s : engine) :
  tracking s (l1 ++ k :: l2) → passes_filter K k →
  key_cancellation_is_key_in_press_list K k = true →
  k ∉ l1 → l1 ++ l2 ≠ [] →
  ∃ s1, tracking s1 (l1 ++ l2) ∧
        buffer_keyreports_temp s1 = buffer_keyreports s1 ∧
        process_key_cancellation K k key_release s =
        (true, release_scan K s1, release_compare (release_scan K s1)).
Proof.
  intros (Hok & Hheld & Hc & Hr) (Hctl & Hbasic & Hhook) Hlisted Hk Hne.
  rewrite process_not_control by done.
  rewrite Hc, Hbasic, Hhook, Hr. simpl.
  unfold track_key. rewrite Hlisted. simpl.
  destruct (del_key_buffer_held k s l1 l2 Hok Hheld Hk) as (Hheld' & Hcount').
  pose proof (del_key_buffer_ok k s Hok) as Hok'.
  pose proof (held_length _ Hok') as Hlen. rewrite Hheld' in Hlen.
  destruct (Z.eqb_spec (buffer_keyreport_count (del_key_buffer k s)) 0) as [H0|_].
  { rewrite H0 in Hlen. by destruct (l1 ++ l2). }
  exists (snapshot (del_key_buffer k s)). split; [|done].
  apply snapshot_tracking. split; [done|]. split; [done|].
  unfold del_key_buffer. by destruct (find _ _).
Qed.

(** ** Short runs from an empty hold buffer *)

Lemma listed_of_pair (a b : Z) :
  KeyCancellation a b ∈ key_cancellation_table K →
  key_cancellation_is_key_in_press_list K a = true.
Proof.
  intros Hin. unfold key_cancellation_is_key_in_press_list.
  apply existsb_exists. exists (KeyCancellation a b).
  split; [by apply list_elem_of_In | apply Z.eqb_refl].
Qed.

Lemma scan_position_zero (s : engine) : scan_position K s 0 = s.
Proof.
  unfold scan_position. induction (key_cancellation_table K) as [|kc l IH]; [done|].
  simpl. replace (scan_pair 0 s kc) with s; [done|].
  unfold scan_pair. destruct (_ =? _)%Z; [|done].
  by destruct (key_cancellation_is_key_in_buffer _ _).
Qed.

Lemma tracking_count (s : engine) (l : list Z) :
  tracking s l → buffer_keyreport_count s = Z.of_nat (length l).
Proof.
  intros (Hok & Hheld & _). pose proof (held_length s Hok) as Hlen.
  destruct Hok as [_ Hcount _]. rewrite Hheld in Hlen. lia.
Qed.

(** With one key left in the buffer the scan has nothing to clear and the
    comparison registers that key. *)
Lemma release_single (b : Z) (s : engine) :
  tracking s [b] →
  buffer_keyreports_temp s = buffer_keyreports s →
  release_scan K s = s ∧ release_compare s = [add_key b].
Proof.
  intros Htr Htemp. pose proof (tracking_count s _ Htr) as Hcount.
  destruct Htr as (Hok & Hheld & _). simpl in Hcount.
  unfold release_scan, release_compare, upto. rewrite Hcount. simpl.
  split; [apply scan_position_zero|].
  unfold compare_position. rewrite Htemp, Z.eqb_refl. simpl.
  rewrite get_held by lia. by rewrite Hheld.
Qed.

(** With two keys left, the later one cancelling the earlier one, the scan
    clears the earlier one: it is released and the later one registered. *)
Lemma release_pair (b c : Z) (s : engine) :
  tracking s [b; c] →
  buffer_keyreports_temp s = buffer_keyreports s →
  KeyCancellation c b ∈ key_cancellation_table K →
  b ≠ 0%Z →
  tracking (release_scan K s) [b; c] ∧
  release_compare (release_scan K s) = [del_key b; add_key c].
Proof.
  intros Htr Htemp Hpair Hnz. pose proof (tracking_count s _ Htr) as Hcount.
  simpl in Hcount.
  pose proof (release_scan_frame s) as Hframe.
  split; [by eapply scan_frame_tracking|].
  destruct Htr as (Hok & Hheld & _).
  assert (get (buffer_keyreports s) 0 = b) as Hb
    by (rewrite get_held by lia; by rewrite Hheld).
  assert (get (buffer_keyreports s) 1 = c) as Hc
    by (rewrite get_held by lia; by rewrite Hheld).
  unfold release_compare. rewrite (frame_count _ _ _ Hframe), Hcount.
  unfold upto, compare_position. simpl.
  rewrite (frame_buffer _ _ _ Hframe), Hb, Hc.
  assert (get (buffer_keyreports_temp (release_scan K s)) 1 = c) as ->.
  { unfold release_scan, upto. rewrite Hcount. simpl.
    rewrite scan_position_zero. unfold scan_position.
    rewrite (frame_kept _ _ _ (scan_pairs_frame 1 _ s)) by lia.
    by rewrite Htemp. }
  assert (get (buffer_keyreports_temp (release_scan K s)) 0 = 0%Z) as ->.
  { unfold release_scan, upto. rewrite Hcount. simpl.
    rewrite scan_position_zero. unfold scan_position.
    apply (scan_pairs_clears 1 0 (KeyCancellation c b)); simpl; try done.
    - intros i i' Hi Hi' _ _. lia.
    - by rewrite Htemp.
    - apply is_key_in_buffer_held.
      + destruct Hok as [Hlen _ _]. lia.
      + rewrite Hheld. apply elem_of_cons. by left.
    - lia.
    - left. by rewrite Htemp. }
  rewrite !Z.eqb_refl. simpl.
  by destruct (Z.eqb_spec b 0).
Qed.


(** C1, as the code has it. With cancellation and recovery enabled, the
    hold buffer empty, table entries making A cancel B and C cancel B,
    three distinct keycodes that pass the admission filter, B not the
    empty marker 0 and itself the [press] keycode of some table entry:
    when B is pressed before A and C, that is on press(B), press(A),
    press(C), release(A), release(C), the reconciliation on release(A)
    calls [del_key] of B and [add_key] of C and does not call [add_key]
    of B, and the reconciliation on release(C) calls [add_key] of B. *)
Theorem no_recovery_while_later_key_cancels (A B C : Z) (s : engine) :
  tracking s [] →
  KeyCancellation A B ∈ key_cancellation_table K →
  KeyCancellation C B ∈ key_cancellation_table K →
  key_cancellation_is_key_in_press_list K B = true →
  A ≠ B → A ≠ C → B ≠ C → B ≠ 0%Z →
  passes_filter K A → passes_filter K B → passes_filter K C →
  (process_all K [(B, key_press); (A, key_press); (C, key_press);
                  (A, key_release); (C, key_release)] s).2 =
  [(true, press_path K B); (true, press_path K A); (true, press_path K C);
   (true, [del_key B; add_key C]); (true, [add_key B])].
Proof.
  intros Hs HpA HpC HB Hab Hac Hbc Hnz HfA HfB HfC.
  pose proof (listed_of_pair _ _ HpA) as HA.
  pose proof (listed_of_pair _ _ HpC) as HC.
  destruct (press_step [] B s) as (s1 & E1 & Hs1); try done;
    [apply not_elem_of_nil | simpl; lia |].
  destruct (press_step [B] A s1) as (s2 & E2 & Hs2); try done;
    [rewrite not_elem_of_cons; split; [done | apply not_elem_of_nil]
    | simpl; lia |].
  destruct (press_step [B; A] C s2) as (s3 & E3 & Hs3); try done;
    [rewrite !not_elem_of_cons; repeat split; [done.. | apply not_elem_of_nil]
    | simpl; lia |].
  destruct (release_step [B] [C] A s3) as (s4 & Hs4 & Htemp4 & E4); try done;
    [rewrite not_elem_of_cons; split; [done | apply not_elem_of_nil] |].
  destruct (release_pair B C s4 Hs4 Htemp4 HpC Hnz) as (Hs4' & Ecmp4).
  destruct (release_step [B] [] C (release_scan K s4))
    as (s5 & Hs5 & Htemp5 & E5); try done;
    [rewrite not_elem_of_cons; split; [done | apply not_elem_of_nil] |].
  destruct (release_single B s5 Hs5 Htemp5) as (Escan5 & Ecmp5).
  cbn [process_all]. rewrite E1, E2, E3, E4, E5, Ecmp4, Escan5, Ecmp5. done.
Qed.

(** ** The host report *)

Lemma host_apply_no_add (out : list host_action) (h : gset Z) (x : Z) :
  (∀ k, add_key k ∉ out) → x ∈ foldl host_apply h out → x ∈ h.
Proof.
  revert h. induction out as [|a out IH]; intros h Hno; [done|].
  simpl. intros Hx. apply IH in Hx.
  - destruct a as [k|k|c]; simpl in Hx.
    + exfalso. apply (Hno k). by left.
    + by apply elem_of_difference in Hx as [? _].
    + done.
  - intros k Hk. apply (Hno k). by right.
Qed.

Lemma host_apply_del (out : list host_action) (h : gset Z) (b : Z) :
  (∀ k, add_key k ∉ out) → del_key b ∈ out → b ∉ foldl host_apply h out.
Proof.
  revert h. induction out as [|a out IH]; intros h Hno Hdel.
  { by apply elem_of_nil in Hdel. }
  assert (∀ k, add_key k ∉ out) as Hno' by (intros k Hk; apply (Hno k); by right).
  simpl. apply elem_of_cons in Hdel as [ <- | Hdel ].
  - intros Hb%host_apply_no_add; [|done]. simpl in Hb.
    apply elem_of_difference in Hb as [_ Hb]. apply Hb.
    by apply elem_of_singleton.
  - by apply IH.
Qed.

Lemma press_path_no_add (keycode k : Z) : add_key k ∉ press_path K keycode.
Proof.
  rewrite press_path_filter. intros (kc & Heq & _)%list_elem_of_fmap. done.
Qed.

Lemma press_path_del (a b : Z) :
  KeyCancellation a b ∈ key_cancellation_table K →
  del_key b ∈ press_path K a.
Proof.
  intros Hin. rewrite press_path_filter.
  apply list_elem_of_fmap. exists (KeyCancellation a b).
  split; [done|]. by apply list_elem_of_filter.
Qed.

(** No press, of whatever keycode and in whatever mode, registers a key
    on its own: a press only ever releases keys or rewrites the
    configuration. *)
Lemma press_no_add (keycode k : Z) (s : engine) :
  add_key k ∉ (process_key_cancellation K keycode key_press s).2.
Proof.
  destruct (control_operation K keycode) as [op|] eqn:Hop.
  - unfold process_key_cancellation. simpl. rewrite Hop.
    pose proof (control_operation_frame keycode op s Hop) as (_ & Hact & Hlen).
    destruct (op s) as [s' out]. simpl in *.
    destruct out as [|a [|? ?]]; try done. simpl in Hact.
    rewrite andb_true_r in Hact.
    intros <-%list_elem_of_singleton. done.
  - unfold process_key_cancellation. simpl. rewrite Hop.
    repeat match goal with
           | |- context [if ?b then _ else _] => destruct b
           end; simpl;
      first [apply not_elem_of_nil | apply press_path_no_add].
Qed.

(** The most recent entry of the hold buffer is outside every range the
    scan clears, so every reconciliation registers it. *)
Lemma release_registers_last (l : list Z) (b : Z) (s : engine) :
  tracking s (l ++ [b]) →
  buffer_keyreports_temp s = buffer_keyreports s →
  add_key b ∈ release_compare (release_scan K s).
Proof.
  intros Htr Htemp. pose proof (tracking_count s _ Htr) as Hcount.
  rewrite length_app in Hcount. simpl in Hcount.
  pose proof (release_scan_frame s) as Hframe.
  destruct Htr as (Hok & Hheld & _).
  assert (get (buffer_keyreports s) (length l) = b) as Hb.
  { rewrite get_held by lia. rewrite Hheld. apply get_lookup.
    apply list_lookup_middle. done. }
  unfold release_compare. rewrite (frame_count _ _ _ Hframe).
  apply list_elem_of_In, in_flat_map. exists (length l). split.
  - unfold upto. apply in_seq. lia.
  - unfold compare_position.
    rewrite (frame_buffer _ _ _ Hframe), (frame_kept _ _ _ Hframe) by lia.
    rewrite Htemp, Hb, Z.eqb_refl. simpl. by left.
Qed.

(** The order of C1 on any table: with B a [press] keycode and pressed
    last, the reconciliation on release(A) registers B although C is still
    held. *)
Lemma latest_key_is_registered (A B C : Z) (s : engine) :
  tracking s [] →
  key_cancellation_is_key_in_press_list K A = true →
  key_cancellation_is_key_in_press_list K C = true →
  key_cancellation_is_key_in_press_list K B = true →
  A ≠ B → A ≠ C → B ≠ C →
  passes_filter K A → passes_filter K B → passes_filter K C →
  add_key B ∈
    final_calls K [(A, key_press); (C, key_press); (B, key_press);
                   (A, key_release)] s.
Proof.
  intros Hs HA HC HB Hab Hac Hbc HfA HfB HfC.
  destruct (press_step [] A s) as (s1 & E1 & Hs1); try done;
    [apply not_elem_of_nil | simpl; lia |].
  destruct (press_step [A] C s1) as (s2 & E2 & Hs2); try done;
    [rewrite not_elem_of_cons; split; [done | apply not_elem_of_nil]
    | simpl; lia |].
  destruct (press_step [A; C] B s2) as (s3 & E3 & Hs3); try done;
    [rewrite !not_elem_of_cons; repeat split; [done.. | apply not_elem_of_nil]
    | simpl; lia |].
  destruct (release_step [] [C; B] A s3) as (s4 & Hs4 & Htemp4 & E4); try done;
    [apply not_elem_of_nil |].
  unfold final_calls. cbn [process_all]. rewrite E1, E2, E3, E4. simpl.
  by apply (release_registers_last [C] B).
Qed.
End EngineFacts.

(** * Facts about mouse turbo click *)

Section TurboFacts.
Import MouseTurboClick.
Context (F : firmware).

Lemma start_unscheduled (s : state) :
  click_token s = INVALID_DEFERRED_TOKEN F →
  turbo_click_start F s =
  (State (turbo_enabled s) (defer_exec F 5) (negb (click_registered s)),
   [if click_registered s
    then unregister_code16 (MOUSE_TURBO_CLICK_KEY F)
    else register_code16 (MOUSE_TURBO_CLICK_KEY F);
    defer_exec_call 5]).
Proof.
  intros Htok. unfold turbo_click_start, turbo_click_callback.
  rewrite Htok, Z.eqb_refl. by destruct (click_registered s).
Qed.

Lemma stop_scheduled (s : state) :
  click_token s ≠ INVALID_DEFERRED_TOKEN F →
  turbo_click_stop F s =
  (State (turbo_enabled s) (INVALID_DEFERRED_TOKEN F) false,
   cancel_deferred_exec (click_token s) ::
     if click_registered s
     then [unregister_code16 (MOUSE_TURBO_CLICK_KEY F)] else []).
Proof.
  intros Htok%Z.eqb_neq. unfold turbo_click_stop. rewrite Htok. simpl.
  by destruct (click_registered s) eqn:Hreg.
Qed.

(** C10. [process_mouse_turbo_click] returns false exactly when its keycode
    argument equals [turbo_click_keycode].  For the matching keycode, a
    press negates [turbo_enabled] and then runs [turbo_click_start] when
    the flag has become true and [turbo_click_stop] when it has become
    false: starting, with no callback scheduled, runs the callback once
    (registering the click key, or unregistering it if it was registered)
    and schedules the callback with [defer_exec] half a period later;
    stopping, with a callback scheduled, cancels it, invalidates the token
    and unregisters the click key if it is registered.  A release of the
    matching keycode, like any event of another keycode, leaves
    [turbo_enabled], [click_token] and [click_registered] as they were and
    makes no call. *)
Theorem turbo_click_toggles_on_press
    (keycode turbo_click_keycode : Z) (record : keyrecord_t) (s : state) :
  let r := process_mouse_turbo_click F keycode record turbo_click_keycode s in
  let toggled := State (negb (turbo_enabled s)) (click_token s) (click_registered s) in
  (r.1.1 = false ↔ keycode = turbo_click_keycode) ∧
  (keycode = turbo_click_keycode → pressed (event record) = true →
     turbo_enabled r.1.2 = negb (turbo_enabled s) ∧
     (turbo_enabled s = false → (r.1.2, r.2) = turbo_click_start F toggled) ∧
     (turbo_enabled s = true → (r.1.2, r.2) = turbo_click_stop F toggled) ∧
     (turbo_enabled s = false → click_token s = INVALID_DEFERRED_TOKEN F →
        r.1.2 = State true (defer_exec F 5) (negb (click_registered s)) ∧
        r.2 = [if click_registered s
               then unregister_code16 (MOUSE_TURBO_CLICK_KEY F)
               else register_code16 (MOUSE_TURBO_CLICK_KEY F);
               defer_exec_call 5]) ∧
     (turbo_enabled s = true → click_token s ≠ INVALID_DEFERRED_TOKEN F →
        r.1.2 = State false (INVALID_DEFERRED_TOKEN F) false ∧
        r.2 = cancel_deferred_exec (click_token s) ::
                if click_registered s
                then [unregister_code16 (MOUSE_TURBO_CLICK_KEY F)] else [])) ∧
  (keycode = turbo_click_keycode → pressed (event record) = false →
     r.1.2 = s ∧ r.2 = []) ∧
  (keycode ≠ turbo_click_keycode → r.1.2 = s ∧ r.2 = []).
Proof.
  unfold process_mouse_turbo_click.
  destruct (Z.eqb_spec keycode turbo_click_keycode) as [Heq|Hne]; cycle 1.
  { simpl. repeat split; done. }
  destruct (pressed (event record)) eqn:Hp; cycle 1.
  { simpl. repeat split; done. }
  destruct s as [en tok reg]. simpl.
  destruct en; simpl.
  - pose proof (stop_scheduled (State false tok reg)) as Hstop. simpl in Hstop.
    destruct (turbo_click_stop F _) as [s2 out] eqn:E. simpl.
    split; [done|]. split; [|done]. intros _ _.
    split; [|split; [done|split; [done|split; [done|]]]].
    + unfold turbo_click_stop in E. simpl in E.
      repeat match type of E with
             | context [if ?b then _ else _] => destruct b
             end; by injection E as <- <-.
    + intros _ Htok. specialize (Hstop Htok). by injection Hstop as <- <-.
  - pose proof (start_unscheduled (State true tok reg)) as Hstart. simpl in Hstart.
    destruct (turbo_click_start F _) as [s2 out] eqn:E. simpl.
    split; [done|]. split; [|done]. intros _ _.
    split; [|split; [done|split; [done|split; [|done]]]].
    + unfold turbo_click_start, turbo_click_callback in E. simpl in E.
      repeat match type of E with
             | context [if ?b then _ else _] => destruct b
             end; by injection E as <- <-.
    + intros _ Htok. specialize (Hstart Htok). by injection Hstart as <- <-.
Qed.
End TurboFacts.

(** * The handler on concrete keymaps *)

Ltac by_evaluation := apply (bool_decide_unpack _); vm_compute; exact I.

Lemma demo_passes_filter (table : list key_cancellation_t) (k : Z) :
  (0 <= k <= 255)%Z → passes_filter (demo_keymap table) k.
Proof.
  intros Hk. split; [|split].
  - unfold control_keycodes. simpl. rewrite !not_elem_of_cons.
    repeat split; try lia. apply not_elem_of_nil.
  - simpl. apply andb_true_intro. split; [apply Z.leb_le | apply Z.leb_le]; lia.
  - done.
Defined.

Lemma power_on_tracking : tracking (power_on all_on) [].
Proof. split; [apply power_on_ok | done]. Defined.

Example run_saturation :
  let keys := [4; 5; 6; 7; 8; 9; 10; 11; 12; 13]%Z in
  let s := run_ops (Add <$> keys) (power_on all_on) in
  held s = keys ∧ run_ops [Add 14%Z] s = s ∧
  held (run_ops [Del 7%Z; Add 14%Z] s) = [4; 5; 6; 8; 9; 10; 11; 12; 13; 14]%Z.
Proof. repeat split; reflexivity. Qed.

Example run_one_way :
  (process_all one_way
     [(KC_A, key_press); (KC_D, key_press); (KC_A, key_release)]
     (power_on all_on)).2 =
  [(true, [del_key KC_D]); (true, []); (true, [])].
Proof. reflexivity. Qed.

Example run_three_keys :
  (process_all three_keys
     [(KC_D, key_press); (KC_A, key_press); (KC_C, key_press);
      (KC_A, key_release); (KC_C, key_release)]
     (power_on all_on)).2 =
  [(true, [del_key KC_A]); (true, [del_key KC_D]); (true, [del_key KC_D]);
   (true, [del_key KC_D; add_key KC_C]); (true, [add_key KC_D])].
Proof. reflexivity. Qed.

(** C1, counterexample. A cancels D, C cancels D, and D cancels A: after
    press(A), press(C), press(D), the reconciliation on release(A) does call
    [add_key] of D, while C is still held. *)
Lemma no_spurious_recovery_counterexample :
  add_key KC_D ∈
    final_calls three_keys
      [(KC_A, key_press); (KC_C, key_press); (KC_D, key_press);
       (KC_A, key_release)]
      (power_on all_on).
Proof. vm_compute. apply list_elem_of_further, list_elem_of_here. Qed.

Lemma no_recovery_while_later_key_cancels_witness :
  (process_all three_keys
     [(KC_D, key_press); (KC_A, key_press); (KC_C, key_press);
      (KC_A, key_release); (KC_C, key_release)]
     (power_on all_on)).2 =
  [(true, press_path three_keys KC_D); (true, press_path three_keys KC_A);
   (true, press_path three_keys KC_C);
   (true, [del_key KC_D; add_key KC_C]); (true, [add_key KC_D])].
Proof.
  apply (no_recovery_while_later_key_cancels three_keys KC_A KC_D KC_C).
  - apply power_on_tracking.
  - apply list_elem_of_here.
  - apply list_elem_of_further, list_elem_of_here.
  - reflexivity.
  - unfold KC_A, KC_D. lia.
  - unfold KC_A, KC_C. lia.
  - unfold KC_D, KC_C. lia.
  - unfold KC_D. lia.
  - apply demo_passes_filter. unfold KC_A. lia.
  - apply demo_passes_filter. unfold KC_D. lia.
  - apply demo_passes_filter. unfold KC_C. lia.
Defined.



(** C3, counterexample. With the single entry in which A cancels itself and
    A in the hold buffer, position 0 holds the [press] keycode A, the
    [unpress] keycode A is in the buffer and occurs at position 0, which is
    at (not before) the scanned position: the scan leaves A there. *)
Lemma clears_at_or_before_counterexample :
  ¬ clears_at_or_before self_pair (after self_pair [(KC_A, key_press)]).
Proof.
  intros Hclaim.
  specialize (Hclaim 0 0 (KeyCancellation KC_A KC_A)).
  assert (get (buffer_keyreports_temp
                 (release_scan self_pair
                    (snapshot (after self_pair [(KC_A, key_press)])))) 0 = 0%Z)
    as Hzero.
  { apply Hclaim; [vm_compute; lia | apply list_elem_of_here | reflexivity..
                   | lia | reflexivity]. }
  vm_compute in Hzero. discriminate Hzero.
Qed.

Lemma after_two_way_ok :
  buffer_ok (after two_way [(KC_D, key_press); (KC_A, key_press)]).
Proof.
  constructor.
  - reflexivity.
  - vm_compute. split; discriminate.
  - by_evaluation.
Defined.

Lemma release_scan_clears_earlier_witness :
  get (buffer_keyreports_temp
         (release_scan two_way
            (snapshot (after two_way [(KC_D, key_press); (KC_A, key_press)]))))
      0 = 0%Z.
Proof.
  apply (release_scan_clears_earlier two_way
           (after two_way [(KC_D, key_press); (KC_A, key_press)])
           1 0 (KeyCancellation KC_A KC_D)).
  - apply after_two_way_ok.
  - vm_compute. lia.
  - apply list_elem_of_here.
  - reflexivity.
  - reflexivity.
  - lia.
  - reflexivity.
Defined.

(** C4, counterexample. A cancels D only: after press(A), press(D) the host
    report holds A and D together, A not having been released. *)
Lemma no_double_hold_counterexample :
  let h := (host_run one_way [(KC_A, key_press); (KC_D, key_press)]
              (power_on all_on, ∅)).2 in
  KC_A ∈ h ∧ KC_D ∈ h.
Proof. split; by_evaluation. Qed.

Lemma press_path_cancels_witness :
  ∃ s',
    process_key_cancellation (presses_only three_keys) KC_A key_press
      (power_on all_on) =
    (true, s',
     (λ kc, del_key (unpress kc)) <$>
       filter (λ kc, press kc = KC_A)
              (key_cancellation_table (presses_only three_keys))).
Proof.
  apply (press_path_cancels (presses_only three_keys) KC_A (power_on all_on)).
  - apply power_on_ok.
  - by_evaluation.
  - reflexivity.
  - reflexivity.
  - reflexivity.
Defined.

Lemma control_keycodes_are_isolated_witness :
  process_key_cancellation one_way (QK_KEY_CANCELLATION_TOGGLE one_way)
    key_press (power_on all_on) =
  handled (key_cancellation_toggle (power_on all_on)).
Proof.
  refine (proj1 (proj2 (proj2
    (control_keycodes_are_isolated one_way (power_on all_on) _ _)))).
  - by_evaluation.
  - intros k Hk. unfold control_keycodes in Hk. simpl in Hk.
    repeat (apply elem_of_cons in Hk as [-> | Hk]; [reflexivity|]).
    by apply elem_of_nil in Hk.
Defined.

Lemma disabled_is_pass_through_witness :
  process_key_cancellation one_way KC_A key_press
    (power_on (keymap_config_t.Make false true)) =
  (true, power_on (keymap_config_t.Make false true), []).
Proof.
  apply (disabled_is_pass_through one_way KC_A key_press).
  - apply (demo_passes_filter [] KC_A). unfold KC_A. lia.
  - reflexivity.
Defined.

Lemma release_without_recovery_is_inert_witness :
  let s := Engine [KC_A; 0; 0; 0; 0; 0; 0; 0; 0; 0]%Z 1
                  (replicate 10 0%Z) (keymap_config_t.Make true false) in
  process_key_cancellation one_way KC_A key_release s = (true, s, []).
Proof.
  intros s. apply (release_without_recovery_is_inert one_way KC_A key_release s).
  - reflexivity.
  - reflexivity.
Defined.

Lemma hold_buffer_invariant_witness :
  let s := run_ops [Add KC_A; Add KC_D; Del KC_A] (power_on all_on) in
  run_ops [Add KC_D] s = s.
Proof.
  intros s.
  refine (proj1 (proj2 (proj2 (proj2
    (hold_buffer_invariant all_on [Add KC_A; Add KC_D; Del KC_A])))) KC_D _).
  apply list_elem_of_here.
Defined.

Lemma turbo_click_toggles_on_press_witness :
  let F := MouseTurboClick.Firmware 209 0 (λ _, 1%Z) in
  let r := MouseTurboClick.process_mouse_turbo_click F 30000 key_press 30000
             (MouseTurboClick.idle F) in
  r.1.2 = MouseTurboClick.State true 1 true ∧
  r.2 = [MouseTurboClick.register_code16 209; MouseTurboClick.defer_exec_call 5].
Proof.
  intros F.
  destruct (turbo_click_toggles_on_press F 30000 30000 key_press
              (MouseTurboClick.idle F)) as (_ & Hpress & _).
  destruct (Hpress eq_refl eq_refl) as (_ & _ & _ & Hstart & _).
  apply Hstart; reflexivity.
Defined.

(** * Further facts about the hold buffer *)

Lemma del_key_buffer_not_found (k : Z) (s : engine) :
  key_cancellation_is_key_in_buffer k s = false → del_key_buffer k s = s.
Proof.
  unfold key_cancellation_is_key_in_buffer, del_key_buffer. intros Hno.
  destruct (find _ _) as [i|] eqn:Hfind; [|done].
  apply find_some in Hfind as [Hi Hk].
  assert (existsb (λ i, get (buffer_keyreports s) i =? k)%Z
            (upto (buffer_keyreport_count s)) = true) as Hyes
    by (apply existsb_exists; eauto).
  congruence.
Qed.

Lemma filter_ne_absent (k : Z) (l : list Z) :
  k ∉ l → filter (λ x, x ≠ k) l = l.
Proof.
  induction l as [|x l IH]; [done|].
  intros [Hne Hl]%not_elem_of_cons.
  rewrite filter_cons_True by congruence. by rewrite IH.
Qed.

Lemma filter_ne_middle (k : Z) (l1 l2 : list Z) :
  k ∉ l1 → k ∉ l2 → filter (λ x, x ≠ k) (l1 ++ k :: l2) = l1 ++ l2.
Proof.
  intros H1 H2. rewrite filter_app, filter_cons_False by (intros Hne; by apply Hne).
  by rewrite !filter_ne_absent.
Qed.

(** On a well-formed buffer [del_key_buffer] is the removal of the keycode
    from the logical contents, the other keycodes keeping their order. *)
Lemma del_key_buffer_filter (k : Z) (s : engine) :
  buffer_ok s →
  held (del_key_buffer k s) = filter (λ x, x ≠ k) (held s) ∧
  buffer_keyreport_count (del_key_buffer k s) =
    (if bool_decide (k ∈ held s)
     then buffer_keyreport_count s - 1 else buffer_keyreport_count s)%Z.
Proof.
  intros Hok. case_bool_decide as Hin.
  - apply list_elem_of_split_l in Hin as (l1 & l2 & Hheld & Hl1).
    assert (k ∉ l2) as Hl2.
    { pose proof (ok_nodup s Hok) as Hnd. rewrite Hheld in Hnd.
      apply NoDup_app in Hnd as (_ & _ & Hnd).
      by apply NoDup_cons in Hnd as [? _]. }
    destruct (del_key_buffer_held k s l1 l2 Hok Hheld Hl1) as (-> & ->).
    by rewrite Hheld, filter_ne_middle.
  - rewrite del_key_buffer_not_found.
    + split; [|done]. by rewrite filter_ne_absent.
    + apply is_key_in_buffer_false; [|done].
      destruct Hok as [Hlen Hcount _]. unfold KEYREPORT_BUFFER_SIZE in *. lia.
Qed.

(** X1. In a well-formed hold buffer with room left, adding a keycode that
    is not in it appends the keycode after the existing entries, which keep
    their order, raises the count by one, and leaves a buffer in which the
    search finds the new keycode and finds every other keycode exactly when
    it did before. *)
Theorem add_key_buffer_appends (k : Z) (s : engine) :
  buffer_ok s → k ∉ held s →
  (buffer_keyreport_count s < KEYREPORT_BUFFER_SIZE)%Z →
  held (add_key_buffer k s) = held s ++ [k] ∧
  buffer_keyreport_count (add_key_buffer k s) = (buffer_keyreport_count s + 1)%Z ∧
  key_cancellation_is_key_in_buffer k (add_key_buffer k s) = true ∧
  ∀ k', k' ≠ k →
    key_cancellation_is_key_in_buffer k' (add_key_buffer k s) =
    key_cancellation_is_key_in_buffer k' s.
Proof.
  intros Hok Hk Hroom.
  destruct (add_key_buffer_held k s Hok Hk Hroom) as (Hheld & Hcount).
  pose proof (add_key_buffer_ok k s Hok) as Hok'.
  assert (∀ s0, buffer_ok s0 →
            Z.to_nat (buffer_keyreport_count s0) ≤ length (buffer_keyreports s0))
    as Hfits.
  { intros s0 [Hlen Hc _]. unfold KEYREPORT_BUFFER_SIZE in *. lia. }
  split; [done|]. split; [done|]. split.
  - apply is_key_in_buffer_held; [by apply Hfits|].
    rewrite Hheld. apply elem_of_app. right. by apply list_elem_of_singleton.
  - intros k' Hne.
    destruct (key_cancellation_is_key_in_buffer k' s) eqn:Hin.
    + apply is_key_in_buffer_held; [by apply Hfits|].
      apply is_key_in_buffer_held in Hin; [|by apply Hfits].
      rewrite Hheld. apply elem_of_app. by left.
    + apply is_key_in_buffer_false; [by apply Hfits|].
      apply is_key_in_buffer_false in Hin; [|by apply Hfits].
      rewrite Hheld. intros [?|?%list_elem_of_singleton]%elem_of_app; done.
Qed.

(** X2. On a well-formed hold buffer [del_key_buffer] removes the keycode
    and closes the gap: the logical contents afterwards are the contents
    before without that keycode, in the same order; the count drops by one
    if the keycode was present and is unchanged otherwise; and the search
    no longer finds the keycode, although the array behind the count may
    still hold a stale copy. *)
Theorem del_key_buffer_removes (k : Z) (s : engine) :
  buffer_ok s →
  held (del_key_buffer k s) = filter (λ x, x ≠ k) (held s) ∧
  buffer_keyreport_count (del_key_buffer k s) =
    (if bool_decide (k ∈ held s)
     then buffer_keyreport_count s - 1 else buffer_keyreport_count s)%Z ∧
  key_cancellation_is_key_in_buffer k (del_key_buffer k s) = false.
Proof.
  intros Hok. destruct (del_key_buffer_filter k s Hok) as (Hheld & Hcount).
  split; [done|]. split; [done|].
  pose proof (del_key_buffer_ok k s Hok) as [Hlen Hc _].
  apply is_key_in_buffer_false; [unfold KEYREPORT_BUFFER_SIZE in *; lia|].
  rewrite Hheld. intros [Hne _]%list_elem_of_filter. done.
Qed.

(** X3. Deleting a keycode that the search does not find returns the state
    as it was: every array element and the count, also for an empty
    buffer. *)
Theorem del_key_buffer_missing_key (k : Z) (s : engine) :
  key_cancellation_is_key_in_buffer k s = false → del_key_buffer k s = s.
Proof. apply del_key_buffer_not_found. Qed.

(** X4. Adding a keycode that is not in a well-formed buffer with room left
    and deleting it again gives back the logical contents and the count;
    deleting a keycode that is present and adding it again moves it behind
    all the others. *)
Theorem add_del_key_buffer_compose (k : Z) (s : engine) :
  buffer_ok s →
  (k ∉ held s → (buffer_keyreport_count s < KEYREPORT_BUFFER_SIZE)%Z →
     held (del_key_buffer k (add_key_buffer k s)) = held s ∧
     buffer_keyreport_count (del_key_buffer k (add_key_buffer k s)) =
       buffer_keyreport_count s) ∧
  (k ∈ held s →
     held (add_key_buffer k (del_key_buffer k s)) =
       filter (λ x, x ≠ k) (held s) ++ [k] ∧
     buffer_keyreport_count (add_key_buffer k (del_key_buffer k s)) =
       buffer_keyreport_count s).
Proof.
  intros Hok. split.
  - intros Hk Hroom.
    destruct (add_key_buffer_held k s Hok Hk Hroom) as (Hheld & Hcount).
    pose proof (add_key_buffer_ok k s Hok) as Hok'.
    destruct (del_key_buffer_held k _ (held s) [] Hok' Hheld Hk) as (-> & ->).
    rewrite app_nil_r, Hcount. split; [done | lia].
  - intros Hk.
    destruct (del_key_buffer_filter k s Hok) as (Hheld & Hcount).
    rewrite bool_decide_eq_true_2 in Hcount by done.
    pose proof (del_key_buffer_ok k s Hok) as Hok'.
    destruct (add_key_buffer_held k (del_key_buffer k s) Hok') as (-> & ->).
    + rewrite Hheld. intros [Hne _]%list_elem_of_filter. done.
    + rewrite Hcount. destruct Hok as [_ Hc _]. lia.
    + rewrite Hheld, Hcount. split; [done | lia].
Qed.

(** * Further facts about mode control *)

(** X5. Toggling a flag twice gives back the state the first toggle started
    from, and the second EEPROM write stores the configuration that was in
    memory before the first; this holds for the cancellation flag and for
    the recovery flag. *)
Theorem toggle_twice_restores (s : engine) :
  key_cancellation_toggle (key_cancellation_toggle s).1 =
    (s, [eeconfig_update_keymap (keymap_config s)]) ∧
  key_cancellation_recovery_toggle (key_cancellation_recovery_toggle s).1 =
    (s, [eeconfig_update_keymap (keymap_config s)]).
Proof. destruct s as [b n t [[] []]]; split; reflexivity. Qed.

Lemma mode_operations_helper operation :
  operation ∈ mode_operations →
  ∀ s, (operation s).2 = [eeconfig_update_keymap (keymap_config (operation s).1)].
Proof.
  unfold mode_operations. intros Hin s.
  repeat (apply elem_of_cons in Hin as [-> | Hin]; [done|]).
  by apply elem_of_nil in Hin.
Qed.

(** X6. Each of the six mode operations makes exactly one call, the EEPROM
    write of the configuration it leaves in memory, and leaves both arrays
    and the count alone; the three cancellation operations leave the
    recovery flag as it was and the three recovery operations leave the
    cancellation flag as it was. *)
Theorem mode_operations_persist (s : engine) :
  Forall (λ operation,
            (operation s).2 = [eeconfig_update_keymap (keymap_config (operation s).1)] ∧
            same_buffers s (operation s).1)
         mode_operations ∧
  Forall (λ operation, recovery_flag (operation s).1 = recovery_flag s)
         [key_cancellation_enable; key_cancellation_disable; key_cancellation_toggle] ∧
  Forall (λ operation, cancellation_flag (operation s).1 = cancellation_flag s)
         [key_cancellation_recovery_enable; key_cancellation_recovery_disable;
          key_cancellation_recovery_toggle].
Proof. unfold mode_operations. repeat split; repeat constructor. Qed.

(** * Further facts about the process handler *)

Section HandlerFacts.
Context (K : keymap).

Lemma control_operation_Some (keycode : Z) :
  keycode ∈ control_keycodes K → is_Some (control_operation K keycode).
Proof.
  unfold control_keycodes, control_operation. intros Hk.
  repeat match goal with
         | |- context [(keycode =? ?c)%Z] =>
             destruct (Z.eqb_spec keycode c); [by eexists|]
         end.
  repeat (apply elem_of_cons in Hk as [?|Hk]; [done|]).
  by apply elem_of_nil in Hk.
Qed.

Lemma control_operation_listed (keycode : Z) operation :
  control_operation K keycode = Some operation → keycode ∈ control_keycodes K.
Proof.
  intros Hop. destruct (decide (keycode ∈ control_keycodes K)) as [|Hno]; [done|].
  by rewrite (control_operation_None K keycode Hno) in Hop.
Qed.

Lemma same_buffer_and_config_refl (s : engine) : same_buffer_and_config s s.
Proof. done. Qed.

Lemma track_key_config (k : Z) (record : keyrecord_t) (s : engine) :
  keymap_config (track_key K k record s) = keymap_config s.
Proof.
  unfold track_key, add_key_buffer, del_key_buffer.
  repeat match goal with
         | |- context [if ?b then _ else _] => destruct b
         | |- context [match ?o with Some _ => _ | None => _ end] => destruct o
         end; done.
Qed.

Lemma release_scan_same (s : engine) :
  same_buffer_and_config s (release_scan K s).
Proof.
  destruct (release_scan_frame K s) as [Hb Hn Hc _ _]. done.
Qed.

(** Where the state goes on an event the [switch] does not take: nowhere,
    or, with both flags on and a basic keycode, through the hold buffer
    update; from there only the scratch array may change. *)
Lemma process_state_cases (k : Z) (record : keyrecord_t) (s : engine) :
  (pressed (event record) = true → k ∉ control_keycodes K) →
  (process_key_cancellation K k record s).1.1 = true ∧
  ((process_key_cancellation K k record s).1.2 = s ∧
   (process_key_cancellation K k record s).2 = [] ∨
   cancellation_flag s = true ∧ IS_BASIC_KEYCODE K k = true ∧
   process_key_cancellation_user K k record = true ∧
   ∃ s1, (s1 = s ∧ recovery_flag s = false ∧ pressed (event record) = true ∨
          s1 = track_key K k record s ∧ recovery_flag s = true) ∧
         same_buffer_and_config s1 (process_key_cancellation K k record s).1.2 ∧
         ((process_key_cancellation K k record s).2 = [] ∨
          pressed (event record) = true ∧
          (process_key_cancellation K k record s).2 = press_path K k ∨
          pressed (event record) = false ∧
          (process_key_cancellation K k record s).1.2 = release_scan K (snapshot s1) ∧
          (process_key_cancellation K k record s).2 =
            release_compare (release_scan K (snapshot s1)))).
Proof.
  intros Hctl. rewrite process_not_control by done.
  destruct (cancellation_flag s); simpl; [|split; [done | by left]].
  destruct (IS_BASIC_KEYCODE K k); simpl; [|split; [done | by left]].
  destruct (process_key_cancellation_user K k record); simpl;
    [|split; [done | by left]].
  destruct (recovery_flag s) eqn:Hr, (pressed (event record)) eqn:Hp; simpl.
  - destruct (_ =? _)%Z; simpl; (split; [done|]); right;
      (repeat (split; [done|]));
      exists (track_key K k record s); (split; [by right|]);
      (split; [done|]); auto.
  - destruct (_ =? _)%Z; simpl; (split; [done|]); right;
      (repeat (split; [done|]));
      exists (track_key K k record s); (split; [by right|]).
    + split; [done|]. auto.
    + split; [apply (release_scan_same (snapshot _))|]. right. right. done.
  - split; [done|]. right. repeat (split; [done|]).
    exists s. split; [by left|]. split; [done|]. right. left. done.
  - split; [done|]. by left.
Qed.

(** X7. The handler returns false exactly for a press of one of the six
    control keycodes; every release and every press of another keycode is
    let through, whatever the flags, the table and the hold buffer are. *)
Theorem handler_returns_false_only_for_control_press
    (k : Z) (record : keyrecord_t) (s : engine) :
  (process_key_cancellation K k record s).1.1 = false ↔
  pressed (event record) = true ∧ k ∈ control_keycodes K.
Proof.
  split.
  - intros Hret.
    destruct (decide (pressed (event record) = true ∧ k ∈ control_keycodes K))
      as [|Hno]; [done|].
    destruct (process_state_cases k record s) as [Htrue _].
    + intros Hp Hk. apply Hno. done.
    + congruence.
  - intros [Hp Hk]. destruct (control_operation_Some k Hk) as [op Hop].
    unfold process_key_cancellation. rewrite Hp, Hop. by destruct (op s).
Qed.

(** X8. An event that the [switch] does not take and whose keycode is not a
    basic keycode, or that the user hook rejects, is let through with the
    engine state exactly as it was and without any call. *)
Theorem filtered_event_is_untouched (k : Z) (record : keyrecord_t) (s : engine) :
  (pressed (event record) = true → k ∉ control_keycodes K) →
  IS_BASIC_KEYCODE K k = false ∨ process_key_cancellation_user K k record = false →
  process_key_cancellation K k record s = (true, s, []).
Proof.
  intros Hctl Hout. rewrite process_not_control by done.
  destruct (cancellation_flag s); [|done]. simpl.
  destruct Hout as [->| ->]; [done|].
  by destruct (IS_BASIC_KEYCODE K k).
Qed.

(** X9. What an event can do to the configuration and which calls it can
    make: an event that is let through leaves the configuration as it was
    and makes only [add_key] and [del_key] calls; an event that is not let
    through makes exactly one call, the EEPROM write of the configuration
    it leaves in memory; and a press, of whatever keycode, never calls
    [add_key]. *)
Theorem calls_by_event_kind (k : Z) (record : keyrecord_t) (s : engine) :
  let r := process_key_cancellation K k record s in
  (r.1.1 = true →
     keymap_config r.1.2 = keymap_config s ∧
     ∀ a, a ∈ r.2 → is_key_action a = true) ∧
  (r.1.1 = false → r.2 = [eeconfig_update_keymap (keymap_config r.1.2)]) ∧
  (pressed (event record) = true → ∀ k', add_key k' ∉ r.2).
Proof.
  intros r. unfold r. split; [|split].
  - intros Hret.
    destruct (process_state_cases k record s) as (_ & Hcases).
    { intros Hp Hk.
      assert ((process_key_cancellation K k record s).1.1 = false) as Hf.
      { destruct (control_operation_Some k Hk) as [op Hop].
        unfold process_key_cancellation. rewrite Hp, Hop. by destruct (op s). }
      congruence. }
    destruct Hcases as [[-> ->]|(_ & _ & _ & s1 & Hs1 & (_ & _ & Hcfg) & Hout)].
    { split; [done|]. by intros a ?%elem_of_nil. }
    split.
    + rewrite Hcfg. destruct Hs1 as [(-> & _)|(-> & _)]; [done|].
      apply track_key_config.
    + destruct Hout as [->|[(_ & ->)|(_ & _ & ->)]].
      * by intros a ?%elem_of_nil.
      * rewrite press_path_filter. by intros a (kc & -> & _)%list_elem_of_fmap.
      * unfold release_compare. intros a Ha%list_elem_of_In.
        apply in_flat_map in Ha as (i & _ & Ha). unfold compare_position in Ha.
        repeat match type of Ha with
               | context [if ?b then _ else _] => destruct b
               end; simpl in Ha;
          repeat (destruct Ha as [ <- | Ha ]; [done|]); done.
  - intros Hret.
    destruct (decide (pressed (event record) = true ∧ k ∈ control_keycodes K))
      as [[Hp Hk]|Hno].
    + destruct (control_operation_Some k Hk) as [op Hop].
      unfold process_key_cancellation. rewrite Hp, Hop.
      pose proof (mode_operations_helper op) as Hop'.
      assert (op ∈ mode_operations) as Hin.
      { unfold control_operation in Hop. unfold mode_operations.
        repeat match type of Hop with
               | context [if ?b then _ else _] => destruct b
               end; try discriminate; injection Hop as <-;
          rewrite !elem_of_cons; auto 10. }
      specialize (Hop' Hin s). by destruct (op s).
    + destruct (process_state_cases k record s) as [Htrue _]; [|congruence].
      intros Hp Hk. apply Hno. done.
  - intros Hp k'. pose proof (press_no_add K k k' s) as Hno.
    destruct record as [[p]]. simpl in Hp. subst p. done.
Qed.

(** ** The hold buffer under the handler *)

Lemma same_buffer_held (s s' : engine) :
  same_buffer_and_config s s' → held s' = held s.
Proof. intros (Hb & Hn & _). unfold held. by rewrite Hb, Hn. Qed.

Lemma same_buffer_ok (s s' : engine) :
  same_buffer_and_config s s' → buffer_ok s → buffer_ok s'.
Proof.
  intros Hsame [Hlen Hcount Hnodup].
  pose proof (same_buffer_held s s' Hsame) as Hheld.
  destruct Hsame as (Hb & Hn & _).
  constructor; rewrite ?Hheld, ?Hb, ?Hn; done.
Qed.

Lemma add_key_buffer_held_cases (k : Z) (s : engine) :
  buffer_ok s →
  held (add_key_buffer k s) = held s ∨
  (k ∉ held s) ∧ held (add_key_buffer k s) = held s ++ [k].
Proof.
  intros Hok.
  destruct (decide (k ∈ held s)) as [Hin|Hout].
  { left. rewrite add_key_buffer_present; [done|].
    apply is_key_in_buffer_held; [|done].
    destruct Hok as [Hlen Hc _]. unfold KEYREPORT_BUFFER_SIZE in *. lia. }
  destruct (Z.le_gt_cases KEYREPORT_BUFFER_SIZE (buffer_keyreport_count s))
    as [Hfull|Hroom].
  { left. by rewrite add_key_buffer_full. }
  right. split; [done|].
  apply add_key_buffer_held; [done..|lia].
Qed.

Lemma track_key_ok (k : Z) (record : keyrecord_t) (s : engine) :
  buffer_ok s → buffer_ok (track_key K k record s).
Proof.
  intros Hok. unfold track_key.
  destruct (key_cancellation_is_key_in_press_list K k); [|done].
  destruct (pressed (event record));
    [by apply add_key_buffer_ok | by apply del_key_buffer_ok].
Qed.

Lemma track_key_held (k : Z) (record : keyrecord_t) (s : engine) :
  buffer_ok s →
  held (track_key K k record s) = held s ∨
  pressed (event record) = true ∧
    key_cancellation_is_key_in_press_list K k = true ∧
    (k ∉ held s) ∧ held (track_key K k record s) = held s ++ [k] ∨
  pressed (event record) = false ∧
    key_cancellation_is_key_in_press_list K k = true ∧
    held (track_key K k record s) = filter (λ x, x ≠ k) (held s).
Proof.
  intros Hok. unfold track_key.
  destruct (key_cancellation_is_key_in_press_list K k); [|by left].
  destruct (pressed (event record)).
  - destruct (add_key_buffer_held_cases k s Hok) as [?|[? ?]]; [by left|].
    right. left. done.
  - right. right. by destruct (del_key_buffer_filter k s Hok) as [-> _].
Qed.

(** The hold buffer after an event, against the hold buffer before. *)
Lemma process_held (k : Z) (record : keyrecord_t) (s : engine) :
  buffer_ok s →
  let s' := (process_key_cancellation K k record s).1.2 in
  buffer_ok s' ∧
  (held s' = held s ∨
   pressed (event record) = true ∧
     key_cancellation_is_key_in_press_list K k = true ∧
     IS_BASIC_KEYCODE K k = true ∧
     (k ∉ held s) ∧ held s' = held s ++ [k] ∨
   pressed (event record) = false ∧
     key_cancellation_is_key_in_press_list K k = true ∧
     held s' = filter (λ x, x ≠ k) (held s)).
Proof.
  intros Hok s'. unfold s'. clear s'.
  destruct (decide (pressed (event record) = true ∧ k ∈ control_keycodes K))
    as [[Hp Hk]|Hno].
  - destruct (control_operation_Some k Hk) as [op Hop].
    pose proof (control_operation_frame K k op s Hop) as ((Hb & Hn & _) & _).
    unfold process_key_cancellation. rewrite Hp, Hop.
    destruct (op s) as [s' out]. simpl in *.
    assert (held s' = held s) as Hheld by (unfold held; by rewrite Hb, Hn).
    split; [|by left].
    destruct Hok as [Hlen Hcount Hnodup].
    constructor; rewrite ?Hheld, ?Hb, ?Hn; done.
  - destruct (process_state_cases k record s) as (_ & Hcases).
    { intros Hp Hk. apply Hno. done. }
    destruct Hcases as [[-> _]|(_ & Hbasic & _ & s1 & Hs1 & Hsame & _)].
    { split; [done | by left]. }
    rewrite (same_buffer_held _ _ Hsame).
    destruct Hs1 as [(-> & _)|(-> & _)].
    + split; [by eapply same_buffer_ok | by left].
    + split; [eapply same_buffer_ok; [done | by apply track_key_ok]|].
      destruct (track_key_held k record s Hok)
        as [?|[(? & ? & ? & ?)|(? & ? & ?)]]; auto 10.
Qed.

(** X10. When [key_cancellation_recovery_is_enabled] is false (either flag
    off), no event changes the hold buffer or its count, and a release
    changes nothing in the engine and makes no call. *)
Theorem inactive_recovery_freezes_buffer
    (k : Z) (record : keyrecord_t) (s : engine) :
  key_cancellation_recovery_is_enabled s = false →
  let r := process_key_cancellation K k record s in
  buffer_keyreports r.1.2 = buffer_keyreports s ∧
  buffer_keyreport_count r.1.2 = buffer_keyreport_count s ∧
  (pressed (event record) = false → r = (true, s, [])).
Proof.
  intros Hoff r. unfold r. clear r. unfold key_cancellation_recovery_is_enabled in Hoff.
  destruct (decide (pressed (event record) = true ∧ k ∈ control_keycodes K))
    as [[Hp Hk]|Hno].
  - destruct (control_operation_Some k Hk) as [op Hop].
    pose proof (control_operation_frame K k op s Hop) as ((Hb & Hn & _) & _).
    unfold process_key_cancellation. rewrite Hp, Hop.
    destruct (op s) as [s' out]. simpl in *. repeat split; done.
  - rewrite process_not_control by (intros Hp Hk; apply Hno; done).
    destruct (cancellation_flag s); simpl in *; [|done]. rewrite Hoff. simpl.
    destruct (IS_BASIC_KEYCODE K k); simpl; [|done].
    destruct (process_key_cancellation_user K k record); simpl; [|done].
    by destruct (pressed (event record)).
Qed.

(** X11. The handler keeps the hold buffer well formed on every event:
    from a state with ten-element arrays, a count between 0 and 10 and no
    keycode twice among the counted entries, it reaches such a state again,
    whatever the keycode, the edge, the flags and the table are. *)
Theorem handler_keeps_buffer_well_formed
    (k : Z) (record : keyrecord_t) (s : engine) :
  buffer_ok s → buffer_ok (process_key_cancellation K k record s).1.2.
Proof. intros Hok. by destruct (process_held k record s Hok) as [? _]. Qed.

(** X12. An event changes the hold buffer by its own keycode only: a press
    leaves the logical contents as they were or appends its keycode, which
    was not in them; a release leaves them as they were or removes its
    keycode, the others keeping their order; so any other keycode is in the
    buffer afterwards exactly when it was before. *)
Theorem event_changes_only_its_own_key
    (k : Z) (record : keyrecord_t) (s : engine) :
  buffer_ok s →
  let s' := (process_key_cancellation K k record s).1.2 in
  (pressed (event record) = true →
     held s' = held s ∨ (k ∉ held s) ∧ held s' = held s ++ [k]) ∧
  (pressed (event record) = false →
     held s' = held s ∨ held s' = filter (λ x, x ≠ k) (held s)) ∧
  (∀ k', k' ≠ k → k' ∈ held s' ↔ k' ∈ held s).
Proof.
  intros Hok s'. unfold s'. clear s'.
  destruct (process_held k record s Hok)
    as (_ & [Hsame|[(Hp & _ & _ & Hk & Happ)|(Hp & _ & Hdel)]]).
  - rewrite Hsame. repeat split; auto.
  - rewrite Happ. split; [auto|]. split; [congruence|].
    intros k' Hne. rewrite elem_of_app, list_elem_of_singleton.
    split; [intros [?|?]; done | auto].
  - rewrite Hdel. split; [congruence|]. split; [auto|].
    intros k' Hne. rewrite list_elem_of_filter.
    split; [intros [_ ?]; done | auto].
Qed.

Lemma process_all_invariant (P : engine → Prop) :
  (∀ k record s, P s → P (process_key_cancellation K k record s).1.2) →
  ∀ evs s, P s → P (process_all K evs s).1.
Proof.
  intros Hstep evs. induction evs as [|[k record] evs IH]; intros s Hs; [done|].
  simpl. specialize (Hstep k record s Hs).
  destruct (process_key_cancellation K k record s) as [[fwd s'] out].
  specialize (IH s' Hstep).
  by destruct (process_all K evs s') as [s'' rest].
Qed.

Lemma process_tracks_listed_keys (k : Z) (record : keyrecord_t) (s : engine) :
  tracks_listed_keys K s →
  tracks_listed_keys K (process_key_cancellation K k record s).1.2.
Proof.
  intros [Hok Hlisted].
  destruct (process_held k record s Hok)
    as (Hok' & [Hsame|[(_ & Hl & Hb & _ & Happ)|(_ & _ & Hdel)]]);
    (split; [done|]).
  - by rewrite Hsame.
  - rewrite Happ. intros k' [?| ->%list_elem_of_singleton]%elem_of_app; auto.
  - rewrite Hdel. intros k' [_ ?]%list_elem_of_filter. auto.
Qed.

Lemma run_tracks_listed_keys (cfg : keymap_config_t.t)
    (evs : list (Z * keyrecord_t)) :
  tracks_listed_keys K (process_all K evs (power_on cfg)).1.
Proof.
  apply (process_all_invariant (tracks_listed_keys K)).
  - apply process_tracks_listed_keys.
  - split; [apply power_on_ok|]. by intros k ?%elem_of_nil.
Qed.

(** X13. After power-on and any sequence of events, presses and releases
    of any keycodes, control keycodes included, the hold buffer is well
    formed and every keycode in it is the [press] keycode of some table
    entry and a basic keycode: no other keycode ever enters the buffer. *)
Theorem only_listed_basic_keys_enter_buffer
    (cfg : keymap_config_t.t) (evs : list (Z * keyrecord_t)) :
  let s := (process_all K evs (power_on cfg)).1 in
  buffer_ok s ∧
  ∀ k, k ∈ held s →
    key_cancellation_is_key_in_press_list K k = true ∧
    IS_BASIC_KEYCODE K k = true.
Proof. apply run_tracks_listed_keys. Qed.

(** ** The calls of the release path *)

Lemma held_as_map (s : engine) :
  buffer_ok s →
  held s = get (buffer_keyreports s) <$> upto (buffer_keyreport_count s).
Proof.
  intros [Hlen Hcount _]. unfold held, upto, KEYREPORT_BUFFER_SIZE in *.
  apply list_eq. intros i. rewrite list_lookup_fmap.
  destruct (decide (i < Z.to_nat (buffer_keyreport_count s))) as [Hi|Hi].
  - rewrite lookup_take_lt by done. rewrite lookup_seq_lt by done. simpl.
    apply lookup_get. lia.
  - rewrite lookup_take_ge by lia. rewrite lookup_seq_ge by lia. done.
Qed.

Lemma compare_after_scan (s : engine) (i : nat) :
  let s' := release_scan K (snapshot s) in
  compare_position s' i = [add_key (get (buffer_keyreports s) i)] ∧
    get (buffer_keyreports_temp s') i = get (buffer_keyreports s) i ∨
  compare_position s' i = [del_key (get (buffer_keyreports s) i)] ∧
    get (buffer_keyreports_temp s') i = 0%Z ∧
    get (buffer_keyreports s) i ≠ 0%Z.
Proof.
  intros s'. destruct (release_scan_frame K (snapshot s)) as [Hb _ _ Hz _].
  fold s' in Hb, Hz. simpl in Hb, Hz.
  unfold compare_position. rewrite Hb.
  destruct (Z.eqb_spec (get (buffer_keyreports s) i)
              (get (buffer_keyreports_temp s') i)) as [Heq|Hne]; simpl.
  - left. by rewrite <- Heq.
  - right. destruct (Hz i) as [Hsame|Hzero]; [congruence|].
    rewrite Hzero in *. by rewrite Z.eqb_refl.
Qed.

Lemma release_compare_names (s : engine) :
  buffer_ok s →
  call_keycode <$> release_compare (release_scan K (snapshot s)) =
  Some <$> held s.
Proof.
  intros Hok. rewrite (held_as_map s Hok). unfold release_compare.
  destruct (release_scan_frame K (snapshot s)) as [_ -> _ _ _]. simpl.
  induction (upto (buffer_keyreport_count s)) as [|i l IH]; [done|].
  simpl. rewrite fmap_app, IH. f_equal.
  by destruct (compare_after_scan s i) as [[-> _]|[-> _]].
Qed.

(** The states from which a release reaches the comparison loop. *)
Lemma release_reconciles (k : Z) (record : keyrecord_t) (s : engine) :
  buffer_ok s →
  pressed (event record) = false →
  (process_key_cancellation K k record s).2 = [] ∨
  ∃ s1, s1 = track_key K k record s ∧ buffer_ok s1 ∧
        keymap_config s1 = keymap_config s ∧
        cancellation_flag s = true ∧ recovery_flag s = true ∧
        (process_key_cancellation K k record s).1.2 = release_scan K (snapshot s1) ∧
        (process_key_cancellation K k record s).2 =
          release_compare (release_scan K (snapshot s1)).
Proof.
  intros Hok Hrel.
  destruct (process_state_cases k record s) as (_ & Hcases);
    [by rewrite Hrel|].
  destruct Hcases as [[_ ->]|(Hc & _ & _ & s1 & Hs1 & _ & Hout)]; [by left|].
  destruct Hout as [->|[(Hp & _)|(_ & Hs' & Hcalls)]]; [by left | congruence |].
  destruct Hs1 as [(_ & _ & Hp)|(-> & Hr)]; [congruence|].
  right. eexists. split; [done|]. split; [by apply track_key_ok|].
  split; [apply track_key_config|]. done.
Qed.

(** X14. A release makes either no call at all or exactly one call for
    each keycode left in the hold buffer, in buffer order, each an
    [add_key] or a [del_key] of that keycode. *)
Theorem release_calls_name_held_keys (k : Z) (record : keyrecord_t) (s : engine) :
  buffer_ok s →
  pressed (event record) = false →
  let r := process_key_cancellation K k record s in
  r.2 = [] ∨ call_keycode <$> r.2 = Some <$> held r.1.2.
Proof.
  intros Hok Hrel r. unfold r. clear r.
  destruct (release_reconciles k record s Hok Hrel)
    as [?|(s1 & _ & Hok1 & _ & _ & _ & -> & ->)]; [by left|].
  right. rewrite (release_compare_names s1 Hok1).
  by rewrite (same_buffer_held _ _ (release_scan_same (snapshot s1))).
Qed.

(** X15. After power-on and any sequence of events, the handler's calls on
    a release never name the keycode being released: the reconciliation
    neither registers it again nor releases it a second time. *)
Theorem release_never_names_released_key
    (cfg : keymap_config_t.t) (evs : list (Z * keyrecord_t))
    (k : Z) (record : keyrecord_t) :
  pressed (event record) = false →
  let s := (process_all K evs (power_on cfg)).1 in
  ∀ a, a ∈ (process_key_cancellation K k record s).2 → call_keycode a ≠ Some k.
Proof.
  intros Hrel s a Ha Hk.
  destruct (run_tracks_listed_keys cfg evs) as [Hok Hlisted]. fold s in Hok, Hlisted.
  destruct (release_reconciles k record s Hok Hrel)
    as [Hnil|(s1 & Hs1 & Hok1 & _ & _ & _ & _ & Hcalls)].
  { rewrite Hnil in Ha. by apply elem_of_nil in Ha. }
  assert (Some k ∈ call_keycode <$> (process_key_cancellation K k record s).2) as Hin
    by (apply list_elem_of_fmap; eauto).
  rewrite Hcalls, (release_compare_names s1 Hok1) in Hin.
  apply list_elem_of_fmap in Hin as (k0 & [= <-] & Hheld).
  subst s1. unfold track_key in Hheld. rewrite Hrel in Hheld.
  destruct (key_cancellation_is_key_in_press_list K k) eqn:Hl.
  - destruct (del_key_buffer_filter k s Hok) as [Hdel _]. rewrite Hdel in Hheld.
    apply list_elem_of_filter in Hheld as [Hne _]. done.
  - destruct (Hlisted k Hheld) as [Hyes _]. congruence.
Qed.

(** X16. The reconciliation registers the most recent key whatever the
    table says: with both flags on, for a release of a keycode that passes
    the admission filter, if the hold buffer afterwards is not empty then
    the calls contain [add_key] of its last entry. *)
Theorem release_registers_most_recent_key
    (k : Z) (s : engine) (l : list Z) (b : Z) :
  buffer_ok s →
  cancellation_flag s = true → recovery_flag s = true →
  passes_filter K k →
  let r := process_key_cancellation K k key_release s in
  held r.1.2 = l ++ [b] →
  add_key b ∈ r.2.
Proof.
  intros Hok Hc Hr (Hctl & Hbasic & Hhook) r. unfold r. clear r.
  rewrite process_not_control by done. rewrite Hc, Hbasic, Hhook, Hr. simpl.
  pose proof (track_key_ok k key_release s Hok) as Hok1.
  pose proof (track_key_config k key_release s) as Hcfg.
  set (s1 := track_key K k key_release s) in *.
  destruct (Z.eqb_spec (buffer_keyreport_count s1) 0) as [H0|_]; simpl.
  - intros Hheld. pose proof (held_length s1 Hok1) as Hlen.
    rewrite Hheld, H0, length_app in Hlen. simpl in Hlen. lia.
  - rewrite (same_buffer_held _ _ (release_scan_same (snapshot s1))).
    intros Hheld. apply (release_registers_last K l b); [|done].
    apply snapshot_tracking. split; [done|]. split; [done|].
    unfold cancellation_flag, recovery_flag in *. by rewrite Hcfg.
Qed.

(** ** Why the reconciliation releases a key *)

Lemma justified_refl (n : nat) (t : list Z) : justified K n t t.
Proof. intros i. by left. Qed.

Lemma scan_pair_justified (n j : nat) (t0 : list Z) (kc : key_cancellation_t)
    (s : engine) :
  j < n → kc ∈ key_cancellation_table K →
  (∀ i, get (buffer_keyreports_temp s) i = get t0 i ∨
        get (buffer_keyreports_temp s) i = 0%Z) →
  justified K n t0 (buffer_keyreports_temp s) →
  justified K n t0 (buffer_keyreports_temp (scan_pair j s kc)).
Proof.
  intros Hj Hkc Hz Hjust. unfold scan_pair.
  destruct (Z.eqb_spec (press kc) (get (buffer_keyreports_temp s) j))
    as [Hpress|_]; [|done].
  destruct (key_cancellation_is_key_in_buffer (unpress kc) s); [|done].
  unfold del_key_buffer_temp.
  destruct (find _ _) as [i0|] eqn:Hfind; [|done].
  apply find_upto_Some in Hfind as (Hi0 & Hk0%Z.eqb_eq & _). simpl.
  intros i. rewrite get_insert. case_decide as Hi; [subst i|apply Hjust].
  destruct (Hjust i0) as [Hsame|Hright]; [|by right].
  destruct (decide (get t0 i0 = 0%Z)) as [Hzero|Hnz]; [by left|].
  right. exists kc, j. split; [done|]. split; [congruence|].
  split; [lia|]. rewrite Hpress. destruct (Hz j); auto.
Qed.

Lemma scan_pairs_justified (n j : nat) (t0 : list Z)
    (l : list key_cancellation_t) (s : engine) :
  j < n → Forall (λ kc, kc ∈ key_cancellation_table K) l →
  (∀ i, get (buffer_keyreports_temp s) i = get t0 i ∨
        get (buffer_keyreports_temp s) i = 0%Z) →
  justified K n t0 (buffer_keyreports_temp s) →
  (∀ i, get (buffer_keyreports_temp (foldl (scan_pair j) s l)) i = get t0 i ∨
        get (buffer_keyreports_temp (foldl (scan_pair j) s l)) i = 0%Z) ∧
  justified K n t0 (buffer_keyreports_temp (foldl (scan_pair j) s l)).
Proof.
  intros Hj. revert s. induction l as [|kc l IH]; intros s Hl Hz Hjust; [done|].
  apply Forall_cons in Hl as [Hkc Hl]. simpl. apply IH; [done| |].
  - intros i. destruct (frame_cleared _ _ _ (scan_pair_frame j s kc) i)
      as [-> | ->]; auto.
  - by apply scan_pair_justified.
Qed.

Lemma scan_down_justified (n m : nat) (t0 : list Z) (s : engine) :
  m ≤ n →
  (∀ i, get (buffer_keyreports_temp s) i = get t0 i ∨
        get (buffer_keyreports_temp s) i = 0%Z) →
  justified K n t0 (buffer_keyreports_temp s) →
  justified K n t0
    (buffer_keyreports_temp (foldl (scan_position K) s (reverse (seq 0 m)))).
Proof.
  revert s. induction m as [|m IH]; intros s Hm Hz Hjust; [done|].
  rewrite release_scan_step.
  destruct (scan_pairs_justified n m t0 (key_cancellation_table K) s)
    as (Hz' & Hjust'); [lia | by apply Forall_forall | done | done |].
  apply IH; [lia | done | done].
Qed.

(** X17. The reconciliation releases a key only on the table's account: if
    a release calls [del_key] of a keycode, then that keycode is not 0, is
    in the hold buffer, and is the [unpress] keycode of a table entry whose
    [press] keycode is in the hold buffer too, or is 0 (the value a cleared
    scratch slot holds). *)
Theorem release_call_has_table_entry (k b : Z) (record : keyrecord_t) (s : engine) :
  buffer_ok s →
  pressed (event record) = false →
  let r := process_key_cancellation K k record s in
  del_key b ∈ r.2 →
  b ≠ 0%Z ∧ b ∈ held r.1.2 ∧
  ∃ kc, kc ∈ key_cancellation_table K ∧ unpress kc = b ∧
        (press kc ∈ held r.1.2 ∨ press kc = 0%Z).
Proof.
  intros Hok Hrel r. unfold r. clear r. intros Hdel.
  destruct (release_reconciles k record s Hok Hrel)
    as [Hnil|(s1 & _ & Hok1 & _ & _ & _ & Hs' & Hcalls)].
  { rewrite Hnil in Hdel. by apply elem_of_nil in Hdel. }
  rewrite Hs', (same_buffer_held _ _ (release_scan_same (snapshot s1))).
  rewrite Hcalls in Hdel. unfold release_compare in Hdel.
  destruct (release_scan_frame K (snapshot s1)) as [_ Hn _ _ _].
  rewrite Hn in Hdel. simpl in Hdel.
  apply list_elem_of_In, in_flat_map in Hdel as (i & Hi%in_seq & Hdel).
  destruct (compare_after_scan s1 i) as [[Hcmp _]|(Hcmp & Hzero & Hnz)];
    rewrite Hcmp in Hdel; destruct Hdel as [Heq|[]]; [done|].
  injection Heq as <-.
  pose proof (held_length s1 Hok1) as Hlen.
  assert (∀ j, j < Z.to_nat (buffer_keyreport_count s1) →
               get (buffer_keyreports s1) j ∈ held s1) as Hheld.
  { intros j Hj. apply elem_of_held; [|eauto].
    destruct Hok1 as [Hl Hc _]. unfold KEYREPORT_BUFFER_SIZE in *. lia. }
  split; [done|]. split; [apply Hheld; lia|].
  pose proof (scan_down_justified (Z.to_nat (buffer_keyreport_count s1))
                (Z.to_nat (buffer_keyreport_count s1))
                (buffer_keyreports s1) (snapshot s1)) as Hjust.
  destruct (Hjust (le_n _) (λ i, or_introl eq_refl) (justified_refl _ _) i)
    as [Hsame|(kc & j & Hkc & Hun & Hj & Hpress)].
  { unfold release_scan, upto in Hzero. simpl in Hzero, Hsame. congruence. }
  exists kc. split; [done|]. split; [done|].
  destruct Hpress as [-> | ->]; [left; apply Hheld; lia | by right].
Qed.
End HandlerFacts.

(** * Edge cases of the process handler *)

Section HandlerEdges.
Context (K : keymap).

(** X24. A press of a keycode that is not a control keycode and is the
    [press] keycode of no table entry makes no call, is let through, and
    leaves the hold buffer, its count and the configuration as they were,
    whatever the flags are. *)
Theorem unlisted_press_makes_no_call (k : Z) (s : engine) :
  k ∉ control_keycodes K →
  key_cancellation_is_key_in_press_list K k = false →
  let r := process_key_cancellation K k key_press s in
  r.1.1 = true ∧ r.2 = [] ∧ same_buffer_and_config s r.1.2.
Proof.
  intros Hctl Hl r. unfold r. clear r.
  rewrite process_not_control by done.
  unfold track_key. rewrite Hl, (press_path_not_listed K k Hl). simpl.
  repeat match goal with
         | |- context [if ?b then _ else _] => destruct b
         end; done.
Qed.

(** X25. Saturation: with cancellation and recovery on and the hold buffer
    full (count 10), a press that passes the admission filter leaves all
    ten entries and the count as they are, whether or not its keycode is
    among them, and still runs the press path: the state afterwards is the
    state before with the scratch array overwritten by the buffer, and the
    calls are the [del_key] calls of the keycode's table entries. *)
Theorem press_on_full_buffer (k : Z) (s : engine) :
  buffer_keyreport_count s = KEYREPORT_BUFFER_SIZE →
  cancellation_flag s = true → recovery_flag s = true →
  passes_filter K k →
  process_key_cancellation K k key_press s =
  (true, snapshot s, press_path K k).
Proof.
  intros Hfull Hc Hr (Hctl & Hbasic & Hhook).
  rewrite process_not_control by done.
  rewrite Hc, Hbasic, Hhook, Hr. simpl.
  assert (track_key K k key_press s = s) as ->.
  { unfold track_key. simpl.
    destruct (key_cancellation_is_key_in_press_list K k); [|done].
    apply add_key_buffer_full. lia. }
  rewrite Hfull. done.
Qed.

Lemma add_key_buffer_with_temp (k : Z) (t : list Z) (s : engine) :
  add_key_buffer k (with_temp s t) = with_temp (add_key_buffer k s) t.
Proof.
  unfold add_key_buffer, key_cancellation_is_key_in_buffer. simpl.
  repeat match goal with
         | |- context [if ?b then _ else _] => destruct b
         end; done.
Qed.

Lemma del_key_buffer_with_temp (k : Z) (t : list Z) (s : engine) :
  del_key_buffer k (with_temp s t) = with_temp (del_key_buffer k s) t.
Proof. unfold del_key_buffer. simpl. by destruct (find _ _). Qed.

Lemma track_key_with_temp (k : Z) (record : keyrecord_t) (t : list Z) (s : engine) :
  track_key K k record (with_temp s t) = with_temp (track_key K k record s) t.
Proof.
  unfold track_key.
  destruct (key_cancellation_is_key_in_press_list K k); [|done].
  destruct (pressed (event record));
    [apply add_key_buffer_with_temp | apply del_key_buffer_with_temp].
Qed.

(** X26. The scratch array carries nothing from one call to the next: the
    value the handler returns, the calls it makes, and the hold buffer,
    count and configuration it leaves do not depend on what
    [buffer_keyreports_temp] held when it was called. *)
Theorem scratch_array_is_not_an_input
    (k : Z) (record : keyrecord_t) (t : list Z) (s : engine) :
  let r := process_key_cancellation K k record s in
  let r' := process_key_cancellation K k record (with_temp s t) in
  r'.1.1 = r.1.1 ∧ r'.2 = r.2 ∧ same_buffer_and_config r.1.2 r'.1.2.
Proof.
  intros r r'. unfold r, r'. clear r r'.
  destruct (decide (pressed (event record) = true ∧ k ∈ control_keycodes K))
    as [[Hp Hk]|Hno].
  - destruct (control_operation_Some K k Hk) as [op Hop].
    unfold process_key_cancellation. rewrite Hp, Hop.
    unfold control_operation in Hop.
    repeat match type of Hop with
           | context [if ?b then _ else _] => destruct b
           end; try discriminate; injection Hop as <-; done.
  - rewrite !process_not_control by (intros Hp Hk; apply Hno; done).
    change (cancellation_flag (with_temp s t)) with (cancellation_flag s).
    change (recovery_flag (with_temp s t)) with (recovery_flag s).
    destruct (cancellation_flag s); simpl; [|done].
    destruct (IS_BASIC_KEYCODE K k); simpl; [|done].
    destruct (process_key_cancellation_user K k record); simpl; [|done].
    destruct (recovery_flag s), (pressed (event record)); simpl;
      rewrite ?track_key_with_temp; simpl; try done;
      destruct (_ =? _)%Z; done.
Qed.
End HandlerEdges.

(** * Further facts about mouse turbo click *)

Section TurboMoreFacts.
Import MouseTurboClick.
Context (F : firmware).

(** X18. The callback alternates: it always asks to be run again half a
    period (5 ms) later, never touches [turbo_enabled] or [click_token],
    and two consecutive runs make one [register_code16] and one
    [unregister_code16] call of the click key, in the order the
    [click_registered] flag dictates, and give back the state they started
    from. *)
Theorem callback_alternates (t1 t2 : Z) (s : state) :
  let r1 := turbo_click_callback F t1 s in
  let r2 := turbo_click_callback F t2 r1.1.2 in
  r1.1.1 = 5%Z ∧ r2.1.1 = 5%Z ∧
  turbo_enabled r1.1.2 = turbo_enabled s ∧ click_token r1.1.2 = click_token s ∧
  click_registered r1.1.2 = negb (click_registered s) ∧
  r2.1.2 = s ∧
  r1.2 ++ r2.2 =
    if click_registered s
    then [unregister_code16 (MOUSE_TURBO_CLICK_KEY F);
          register_code16 (MOUSE_TURBO_CLICK_KEY F)]
    else [register_code16 (MOUSE_TURBO_CLICK_KEY F);
          unregister_code16 (MOUSE_TURBO_CLICK_KEY F)].
Proof. destruct s as [en tok []]; repeat split; reflexivity. Qed.

(** X19. [click_registered] mirrors the calls: for the callback and for the
    process handler on any event, the number of [register_code16] calls
    minus the number of [unregister_code16] calls made is 1 when the flag
    goes from false to true, -1 when it goes from true to false and 0 when
    it keeps its value. *)
Theorem registered_flag_mirrors_calls
    (t keycode turbo_click_keycode : Z) (record : keyrecord_t) (s : state) :
  let c := turbo_click_callback F t s in
  let r := process_mouse_turbo_click F keycode record turbo_click_keycode s in
  net_registrations c.2 =
    (Z.b2z (click_registered c.1.2) - Z.b2z (click_registered s))%Z ∧
  net_registrations r.2 =
    (Z.b2z (click_registered r.1.2) - Z.b2z (click_registered s))%Z.
Proof.
  destruct s as [en tok reg]. split.
  - by destruct reg.
  - unfold process_mouse_turbo_click, turbo_click_start, turbo_click_stop,
      turbo_click_callback. simpl.
    destruct (keycode =? turbo_click_keycode)%Z; [|simpl; lia].
    destruct (pressed (event record)); [|simpl; lia].
    destruct en, reg, (tok =? INVALID_DEFERRED_TOKEN F)%Z; reflexivity.
Qed.

(** X20. Provided [defer_exec] hands out a valid token for the callback,
    the process handler keeps the statics consistent on every event, and
    so does the callback while it is scheduled: a callback is scheduled
    exactly while turbo click is on, and while it is off the click key is
    not registered. *)
Theorem turbo_stays_consistent
    (t keycode turbo_click_keycode : Z) (record : keyrecord_t) (s : state) :
  defer_exec F 5 ≠ INVALID_DEFERRED_TOKEN F →
  turbo_consistent F s →
  turbo_consistent F
    (process_mouse_turbo_click F keycode record turbo_click_keycode s).1.2 ∧
  (click_token s ≠ INVALID_DEFERRED_TOKEN F →
   turbo_consistent F (turbo_click_callback F t s).1.2).
Proof.
  intros Hvalid [Htok Hreg]. destruct s as [en tok reg]. simpl in *. split.
  - unfold process_mouse_turbo_click.
    destruct (keycode =? turbo_click_keycode)%Z; [|done].
    destruct (pressed (event record)); [|done]. simpl.
    destruct en; simpl.
    + rewrite stop_scheduled by (simpl; by apply Htok). simpl.
      split; [|done]. split; [done|]. intros Hne. by destruct Hne.
    + rewrite start_unscheduled; cycle 1.
      { simpl. destruct (decide (tok = INVALID_DEFERRED_TOKEN F)) as [|Hne]; [done|].
        apply Htok in Hne. done. }
      simpl. split; [done|]. done.
  - intros Hsched. apply Htok in Hsched. subst en.
    unfold turbo_click_callback. simpl.
    destruct reg; simpl; (split; [done|]); done.
Qed.

Lemma stop_unscheduled (s : state) :
  click_token s = INVALID_DEFERRED_TOKEN F → turbo_click_stop F s = (s, []).
Proof. intros Htok. unfold turbo_click_stop. by rewrite Htok, Z.eqb_refl. Qed.

Lemma start_scheduled (s : state) :
  click_token s ≠ INVALID_DEFERRED_TOKEN F → turbo_click_start F s = (s, []).
Proof. intros Htok%Z.eqb_neq. unfold turbo_click_start. by rewrite Htok. Qed.

(** X21. Starting and stopping do not pile up: stopping twice makes no
    call the second time and changes nothing; and when [defer_exec] hands
    out a valid token, starting twice runs and schedules the callback only
    once. *)
Theorem start_stop_do_not_repeat (s : state) :
  turbo_click_stop F (turbo_click_stop F s).1 = ((turbo_click_stop F s).1, []) ∧
  (defer_exec F 5 ≠ INVALID_DEFERRED_TOKEN F →
   turbo_click_start F (turbo_click_start F s).1 = ((turbo_click_start F s).1, [])).
Proof.
  split.
  - destruct (decide (click_token s = INVALID_DEFERRED_TOKEN F)) as [Heq|Hne].
    + rewrite (stop_unscheduled s Heq). simpl. by apply stop_unscheduled.
    + rewrite (stop_scheduled F s Hne). simpl. by apply stop_unscheduled.
  - intros Hvalid.
    destruct (decide (click_token s = INVALID_DEFERRED_TOKEN F)) as [Heq|Hne].
    + rewrite (start_unscheduled F s Heq). simpl. by apply start_scheduled.
    + rewrite (start_scheduled s Hne). simpl. by apply start_scheduled.
Qed.

(** X22. When [defer_exec] fails, that is returns [INVALID_DEFERRED_TOKEN],
    turning turbo click on from the initial statics registers the click key
    and schedules nothing, and turning it off again then makes no call and
    leaves the click key registered with [click_registered] still true. *)
Theorem failed_defer_leaves_key_registered (turbo_click_keycode : Z) :
  defer_exec F 5 = INVALID_DEFERRED_TOKEN F →
  let r1 := process_mouse_turbo_click F turbo_click_keycode key_press
              turbo_click_keycode (idle F) in
  let r2 := process_mouse_turbo_click F turbo_click_keycode key_press
              turbo_click_keycode r1.1.2 in
  r1.2 = [register_code16 (MOUSE_TURBO_CLICK_KEY F); defer_exec_call 5] ∧
  r1.1.2 = State true (INVALID_DEFERRED_TOKEN F) true ∧
  r2.2 = [] ∧
  r2.1.2 = State false (INVALID_DEFERRED_TOKEN F) true.
Proof.
  intros Hfail. unfold process_mouse_turbo_click, idle. rewrite Z.eqb_refl. simpl.
  rewrite start_unscheduled by done. simpl. rewrite Hfail.
  unfold turbo_click_stop. simpl. rewrite Z.eqb_refl. done.
Qed.

Lemma turbo_click_toggles_facts
    (keycode turbo_click_keycode : Z) (record : keyrecord_t) (s : state) :
  let s' := (process_mouse_turbo_click F keycode record turbo_click_keycode s).1.2 in
  (keycode = turbo_click_keycode ∧ pressed (event record) = true →
   turbo_enabled s' = negb (turbo_enabled s)) ∧
  (¬ (keycode = turbo_click_keycode ∧ pressed (event record) = true) →
   turbo_enabled s' = turbo_enabled s).
Proof.
  unfold process_mouse_turbo_click, turbo_click_start, turbo_click_stop,
    turbo_click_callback.
  destruct (Z.eqb_spec keycode turbo_click_keycode) as [Heq|Hne];
    destruct (pressed (event record)); simpl; split; try done;
    try (intros Hno; exfalso; apply Hno; done);
    try (intros [? ?]; done).
  intros _. destruct s as [[] tok []]; simpl;
    destruct (tok =? INVALID_DEFERRED_TOKEN F)%Z; reflexivity.
Qed.

(** X23. Over any sequence of key events handled with the same
    [turbo_click_keycode], [is_turbo_click_active] ends up flipped exactly
    when the number of presses of that keycode is odd; releases and events
    of other keycodes do not count. *)
Theorem turbo_active_is_press_parity
    (turbo_click_keycode : Z) (evs : list (Z * keyrecord_t)) (s : state) :
  is_turbo_click_active (turbo_run F turbo_click_keycode evs s) =
  xorb (is_turbo_click_active s) (Nat.odd (turbo_presses turbo_click_keycode evs)).
Proof.
  unfold turbo_run, turbo_presses, is_turbo_click_active.
  revert s. induction evs as [|[k record] evs IH]; intros s.
  { simpl. by destruct (turbo_enabled s). }
  simpl foldl. rewrite IH. clear IH.
  destruct (turbo_click_toggles_facts k turbo_click_keycode record s)
    as (Hpress & Hother).
  destruct (decide (k = turbo_click_keycode ∧ pressed (event record) = true))
    as [Hyes|Hno].
  - rewrite filter_cons_True by done. rewrite (Hpress Hyes). simpl length.
    rewrite Nat.odd_succ, <- Nat.negb_odd.
    by destruct (turbo_enabled s), (Nat.odd _).
  - rewrite filter_cons_False by done. by rewrite (Hother Hno).
Qed.
End TurboMoreFacts.

(** * The further facts on concrete inputs *)

Ltac concrete_buffer_ok :=
  constructor; [reflexivity | vm_compute; split; discriminate | by_evaluation].

Lemma after_three_keys_ok :
  buffer_ok (after three_keys
               [(KC_D, key_press); (KC_A, key_press); (KC_C, key_press)]).
Proof. concrete_buffer_ok. Defined.

Lemma add_key_buffer_appends_witness :
  held (add_key_buffer KC_A (power_on all_on)) = held (power_on all_on) ++ [KC_A] ∧
  buffer_keyreport_count (add_key_buffer KC_A (power_on all_on)) =
    (buffer_keyreport_count (power_on all_on) + 1)%Z ∧
  key_cancellation_is_key_in_buffer KC_A (add_key_buffer KC_A (power_on all_on)) = true ∧
  ∀ k', k' ≠ KC_A →
    key_cancellation_is_key_in_buffer k' (add_key_buffer KC_A (power_on all_on)) =
    key_cancellation_is_key_in_buffer k' (power_on all_on).
Proof.
  apply (add_key_buffer_appends KC_A (power_on all_on)).
  - apply power_on_ok.
  - apply not_elem_of_nil.
  - reflexivity.
Defined.

Lemma del_key_buffer_removes_witness :
  let s := after two_way [(KC_D, key_press); (KC_A, key_press)] in
  held (del_key_buffer KC_D s) = filter (λ x, x ≠ KC_D) (held s) ∧
  buffer_keyreport_count (del_key_buffer KC_D s) =
    (if bool_decide (KC_D ∈ held s)
     then buffer_keyreport_count s - 1 else buffer_keyreport_count s)%Z ∧
  key_cancellation_is_key_in_buffer KC_D (del_key_buffer KC_D s) = false.
Proof.
  intros s. apply (del_key_buffer_removes KC_D s). apply after_two_way_ok.
Defined.

Lemma del_key_buffer_missing_key_witness :
  del_key_buffer KC_A (power_on all_on) = power_on all_on.
Proof. apply (del_key_buffer_missing_key KC_A (power_on all_on)). reflexivity. Defined.

Lemma add_del_key_buffer_compose_witness :
  let s := after two_way [(KC_D, key_press); (KC_A, key_press)] in
  held (del_key_buffer KC_W (add_key_buffer KC_W s)) = held s ∧
  held (add_key_buffer KC_D (del_key_buffer KC_D s)) = [KC_A; KC_D].
Proof.
  intros s. split.
  - refine (proj1 (proj1 (add_del_key_buffer_compose KC_W s after_two_way_ok) _ _)).
    + by_evaluation.
    + reflexivity.
  - refine (proj1 (proj2 (add_del_key_buffer_compose KC_D s after_two_way_ok) _)).
    by_evaluation.
Defined.

Lemma filtered_event_is_untouched_witness :
  process_key_cancellation one_way 300 key_press (power_on all_on) =
  (true, power_on all_on, []).
Proof.
  apply (filtered_event_is_untouched one_way 300 key_press (power_on all_on)).
  - intros _. by_evaluation.
  - left. reflexivity.
Defined.

Lemma inactive_recovery_freezes_buffer_witness :
  let s := Engine [KC_A; 0; 0; 0; 0; 0; 0; 0; 0; 0]%Z 1
                  (replicate 10 0%Z) (keymap_config_t.Make false true) in
  let r := process_key_cancellation one_way KC_A key_release s in
  buffer_keyreports r.1.2 = buffer_keyreports s ∧
  buffer_keyreport_count r.1.2 = buffer_keyreport_count s ∧
  (pressed (event key_release) = false → r = (true, s, [])).
Proof.
  intros s. apply (inactive_recovery_freezes_buffer one_way KC_A key_release s).
  reflexivity.
Defined.

Lemma handler_keeps_buffer_well_formed_witness :
  buffer_ok
    (process_key_cancellation two_way KC_C key_press
       (after two_way [(KC_D, key_press); (KC_A, key_press)])).1.2.
Proof.
  apply (handler_keeps_buffer_well_formed two_way KC_C key_press).
  apply after_two_way_ok.
Defined.

Lemma event_changes_only_its_own_key_witness :
  let s := after two_way [(KC_D, key_press); (KC_A, key_press)] in
  let s' := (process_key_cancellation two_way KC_D key_release s).1.2 in
  (pressed (event key_release) = true →
     held s' = held s ∨ (KC_D ∉ held s) ∧ held s' = held s ++ [KC_D]) ∧
  (pressed (event key_release) = false →
     held s' = held s ∨ held s' = filter (λ x, x ≠ KC_D) (held s)) ∧
  (∀ k', k' ≠ KC_D → k' ∈ held s' ↔ k' ∈ held s).
Proof.
  intros s. apply (event_changes_only_its_own_key two_way KC_D key_release s).
  apply after_two_way_ok.
Defined.

Lemma release_calls_name_held_keys_witness :
  let s := after three_keys
             [(KC_D, key_press); (KC_A, key_press); (KC_C, key_press)] in
  let r := process_key_cancellation three_keys KC_A key_release s in
  r.2 = [] ∨ call_keycode <$> r.2 = Some <$> held r.1.2.
Proof.
  intros s. apply (release_calls_name_held_keys three_keys KC_A key_release s).
  - apply after_three_keys_ok.
  - reflexivity.
Defined.

Lemma release_never_names_released_key_witness :
  Forall (λ a, call_keycode a ≠ Some KC_A)
    (process_key_cancellation three_keys KC_A key_release
       (process_all three_keys
          [(KC_D, key_press); (KC_A, key_press); (KC_C, key_press)]
          (power_on all_on)).1).2.
Proof.
  apply Forall_forall.
  apply (release_never_names_released_key three_keys all_on
           [(KC_D, key_press); (KC_A, key_press); (KC_C, key_press)]
           KC_A key_release).
  reflexivity.
Defined.

Lemma release_registers_most_recent_key_witness :
  add_key KC_C ∈
    (process_key_cancellation three_keys KC_A key_release
       (after three_keys
          [(KC_D, key_press); (KC_A, key_press); (KC_C, key_press)])).2.
Proof.
  apply (release_registers_most_recent_key three_keys KC_A _ [KC_D] KC_C).
  - apply after_three_keys_ok.
  - reflexivity.
  - reflexivity.
  - apply demo_passes_filter. unfold KC_A. lia.
  - reflexivity.
Defined.

Lemma release_call_has_table_entry_witness :
  let r := process_key_cancellation three_keys KC_A key_release
             (after three_keys
                [(KC_D, key_press); (KC_A, key_press); (KC_C, key_press)]) in
  KC_D ≠ 0%Z ∧ KC_D ∈ held r.1.2 ∧
  ∃ kc, kc ∈ key_cancellation_table three_keys ∧ unpress kc = KC_D ∧
        (press kc ∈ held r.1.2 ∨ press kc = 0%Z).
Proof.
  apply (release_call_has_table_entry three_keys KC_A KC_D key_release).
  - apply after_three_keys_ok.
  - reflexivity.
  - vm_compute. apply list_elem_of_here.
Defined.

Lemma demo_idle_consistent (token : Z) :
  turbo_consistent (demo_firmware token) (MouseTurboClick.idle (demo_firmware token)).
Proof. split; [|done]. split; [done|]. intros Hne. by destruct Hne. Defined.

Lemma turbo_stays_consistent_witness :
  turbo_consistent (demo_firmware 1)
    (MouseTurboClick.process_mouse_turbo_click (demo_firmware 1)
       30000 key_press 30000 (MouseTurboClick.idle (demo_firmware 1))).1.2.
Proof.
  refine (proj1 (turbo_stays_consistent (demo_firmware 1) 0 30000 30000 key_press
                   (MouseTurboClick.idle (demo_firmware 1)) _ _)).
  - discriminate.
  - apply demo_idle_consistent.
Defined.

Lemma failed_defer_leaves_key_registered_witness :
  let F := demo_firmware 0 in
  let r1 := MouseTurboClick.process_mouse_turbo_click F 30000 key_press 30000
              (MouseTurboClick.idle F) in
  let r2 := MouseTurboClick.process_mouse_turbo_click F 30000 key_press 30000
              r1.1.2 in
  r1.2 = [MouseTurboClick.register_code16 (MouseTurboClick.MOUSE_TURBO_CLICK_KEY F);
          MouseTurboClick.defer_exec_call 5] ∧
  r1.1.2 = MouseTurboClick.State true (MouseTurboClick.INVALID_DEFERRED_TOKEN F) true ∧
  r2.2 = [] ∧
  r2.1.2 = MouseTurboClick.State false (MouseTurboClick.INVALID_DEFERRED_TOKEN F) true.
Proof.
  intros F. apply (failed_defer_leaves_key_registered F 30000). reflexivity.
Defined.

Lemma unlisted_press_makes_no_call_witness :
  let r := process_key_cancellation one_way KC_W key_press (power_on all_on) in
  r.1.1 = true ∧ r.2 = [] ∧ same_buffer_and_config (power_on all_on) r.1.2.
Proof.
  apply (unlisted_press_makes_no_call one_way KC_W (power_on all_on)).
  - by_evaluation.
  - reflexivity.
Defined.

Lemma press_on_full_buffer_witness :
  let s := run_ops (Add <$> [4; 5; 6; 7; 8; 9; 10; 11; 12; 13]%Z) (power_on all_on) in
  process_key_cancellation one_way KC_A key_press s =
  (true, snapshot s, press_path one_way KC_A).
Proof.
  intros s. apply (press_on_full_buffer one_way KC_A s).
  - reflexivity.
  - reflexivity.
  - reflexivity.
  - apply demo_passes_filter. unfold KC_A. lia.
Defined.

(** * The host never holds a key together with the key that cancels it *)

Section NoDoubleHold.
Context (K : keymap).

(** ** Lists *)

Lemma app_singleton_split (l l1 l2 : list Z) (a : Z) :
  l ++ [a] = l1 ++ a :: l2 → a ∉ l → l2 = [].
Proof.
  intros Heq Ha. destruct l2 as [|x l2 _] using rev_ind; [done|].
  exfalso. apply Ha.
  change (l1 ++ a :: (l2 ++ [x])) with (l1 ++ (a :: l2) ++ [x]) in Heq.
  rewrite app_assoc in Heq. apply app_inj_tail in Heq as [-> _].
  apply elem_of_app. right. apply list_elem_of_here.
Qed.

Lemma app_snoc_split (l l1 l2 : list Z) (a k : Z) :
  l ++ [k] = l1 ++ a :: l2 → a ≠ k →
  ∃ l2', l2 = l2' ++ [k] ∧ l = l1 ++ a :: l2'.
Proof.
  intros Heq Hne. destruct l2 as [|x l2 _] using rev_ind.
  - apply app_inj_tail in Heq as [_ ?]. congruence.
  - change (l1 ++ a :: (l2 ++ [x])) with (l1 ++ (a :: l2) ++ [x]) in Heq.
    rewrite app_assoc in Heq. apply app_inj_tail in Heq as [-> ->].
    by exists l2.
Qed.

Lemma filter_split (k a : Z) (l l1 l2 : list Z) :
  filter (λ x, x ≠ k) l = l1 ++ a :: l2 →
  ∃ k1 k2, l = k1 ++ a :: k2 ∧ l2 = filter (λ x, x ≠ k) k2.
Proof.
  revert l1. induction l as [|x l IH]; intros l1 Heq.
  { by destruct l1. }
  destruct (decide (x ≠ k)) as [Hx|Hx].
  - rewrite filter_cons_True in Heq by done.
    destruct l1 as [|y l1]; simpl in Heq.
    + injection Heq as -> <-. by exists [], l.
    + injection Heq as -> Heq. destruct (IH _ Heq) as (k1 & k2 & -> & ->).
      by exists (y :: k1), k2.
  - rewrite filter_cons_False in Heq by done.
    destruct (IH _ Heq) as (k1 & k2 & -> & ->). by exists (x :: k1), k2.
Qed.

(** ** The host report under a list of calls *)

(** When the calls name the keycodes [l], each once, the report afterwards
    holds a keycode exactly if it was registered by a call, or was held
    before and is not among [l]. *)
Lemma host_apply_calls (out : list host_action) (l : list Z) (h : gset Z) (x : Z) :
  call_keycode <$> out = Some <$> l → NoDup l →
  x ∈ foldl host_apply h out ↔ add_key x ∈ out ∨ (x ∈ h ∧ x ∉ l).
Proof.
  revert l h. induction out as [|a out IH]; intros l h Hnames Hnd.
  { destruct l; [|done]. simpl. split; [intros ?; right; split; [done|apply not_elem_of_nil]|].
    intros [?%elem_of_nil|[? _]]; done. }
  destruct l as [|y l]; [done|]. simpl in Hnames.
  injection Hnames as Ha Hnames. apply NoDup_cons in Hnd as [Hy Hnd].
  simpl. rewrite (IH l _ Hnames Hnd). rewrite elem_of_cons, not_elem_of_cons.
  destruct a as [k|k|c]; simpl in Ha; [| |done]; injection Ha as ->; simpl.
  - rewrite elem_of_union, elem_of_singleton.
    destruct (decide (x = y)) as [->|Hxy].
    + split; [intros _; by left; left|]. intros _. right. split; [by left | done].
    + split.
      * intros [?|[[?|?] ?]]; [by left; right | done | by right].
      * intros [[[= ?]|?]|[? [_ ?]]]; [done | by left | right; split; [by right | done]].
  - rewrite elem_of_difference, elem_of_singleton.
    split.
    + intros [?|[[? ?] ?]]; [by left; right | by right].
    + intros [[[= ?]|?]|[? [? ?]]]; [by left | by right].
Qed.

(** ** The engine on an event the [switch] does not take *)

Lemma listed_in_press_keycodes (k : Z) :
  key_cancellation_is_key_in_press_list K k = true → k ∈ press_keycodes K.
Proof.
  unfold key_cancellation_is_key_in_press_list, press_keycodes.
  intros (kc & Hin & Heq%Z.eqb_eq)%existsb_exists.
  apply elem_of_remove_dups, list_elem_of_fmap.
  exists kc. split; [done | by apply list_elem_of_In].
Qed.

(** A table whose [press] keycodes fit in the buffer leaves room for every
    listed keycode that is not in it yet. *)
Lemma room_for_listed_key (a : Z) (s : engine) :
  length (press_keycodes K) ≤ 10 →
  tracks_listed_keys K s →
  key_cancellation_is_key_in_press_list K a = true →
  a ∉ held s →
  (buffer_keyreport_count s < KEYREPORT_BUFFER_SIZE)%Z.
Proof.
  intros Hfit [Hok Hlisted] Ha Hout.
  assert (a :: held s ⊆+ press_keycodes K) as Hsub.
  { apply NoDup_submseteq.
    - apply NoDup_cons. split; [done | apply (ok_nodup s Hok)].
    - intros x [->|Hx]%elem_of_cons; apply listed_in_press_keycodes; [done|].
      by destruct (Hlisted x Hx). }
  apply submseteq_length in Hsub. simpl in Hsub.
  rewrite (held_length s Hok) in Hsub.
  destruct Hok as [_ Hcount _]. unfold KEYREPORT_BUFFER_SIZE in *. lia.
Qed.

Lemma process_passes (k : Z) (record : keyrecord_t) (s : engine) :
  (pressed (event record) = true → k ∉ control_keycodes K) →
  (process_key_cancellation K k record s).1.1 = true ∧
  keymap_config (process_key_cancellation K k record s).1.2 = keymap_config s.
Proof.
  intros Hctl. destruct (process_state_cases K k record s Hctl) as (Htrue & Hcases).
  split; [done|].
  destruct Hcases as [[-> _]|(_ & _ & _ & s1 & Hs1 & (_ & _ & Hcfg) & _)]; [done|].
  rewrite Hcfg. destruct Hs1 as [(-> & _)|(-> & _)]; [done|].
  apply track_key_config.
Qed.

Lemma host_step_through (k : Z) (record : keyrecord_t) (s : engine) (h : gset Z) :
  (pressed (event record) = true → k ∉ control_keycodes K) →
  host_step K (s, h) (k, record) =
  ((process_key_cancellation K k record s).1.2,
   forward k record (foldl host_apply h (process_key_cancellation K k record s).2)).
Proof.
  intros Hctl. destruct (process_passes k record s Hctl) as [Htrue _].
  unfold host_step. simpl.
  destruct (process_key_cancellation K k record s) as [[fwd s'] out].
  simpl in *. by subst fwd.
Qed.

(** With both flags on, the hold buffer after an admitted event is the one
    the buffer update leaves. *)
Lemma process_admitted_on (k : Z) (record : keyrecord_t) (s : engine) :
  (pressed (event record) = true → k ∉ control_keycodes K) →
  cancellation_flag s = true → recovery_flag s = true →
  IS_BASIC_KEYCODE K k = true →
  process_key_cancellation_user K k record = true →
  held (process_key_cancellation K k record s).1.2 =
  held (track_key K k record s).
Proof.
  intros Hctl Hc Hr Hbasic Hhook. rewrite process_not_control by done.
  rewrite Hc, Hbasic, Hhook, Hr. simpl.
  destruct (_ =? _)%Z; simpl; [done|].
  destruct (pressed (event record)); simpl; [done|].
  apply (same_buffer_held _ _ (release_scan_same K (snapshot _))).
Qed.

Lemma press_held_cases (k : Z) (s : engine) :
  buffer_ok s → k ∉ control_keycodes K →
  held (process_key_cancellation K k key_press s).1.2 = held s ∨
  recovery_flag s = true ∧ (k ∉ held s) ∧
    held (process_key_cancellation K k key_press s).1.2 = held s ++ [k].
Proof.
  intros Hok Hctl.
  destruct (process_state_cases K k key_press s) as (_ & Hcases); [done|].
  destruct Hcases as [[-> _]|(_ & _ & _ & s1 & Hs1 & Hsame & _)]; [by left|].
  rewrite (same_buffer_held _ _ Hsame).
  destruct Hs1 as [(-> & _)|(-> & Hr)]; [by left|].
  destruct (track_key_held K k key_press s Hok)
    as [?|[(_ & _ & ? & ?)|(? & _)]]; [by left | by right | done].
Qed.

Lemma release_held_cases (k : Z) (record : keyrecord_t) (s : engine) :
  buffer_ok s → pressed (event record) = false →
  held (process_key_cancellation K k record s).1.2 = held s ∨
  held (process_key_cancellation K k record s).1.2 =
    filter (λ x, x ≠ k) (held s).
Proof.
  intros Hok Hrel.
  destruct (process_held K k record s Hok)
    as (_ & [?|[(? & _)|(_ & _ & ?)]]); [by left | congruence | by right].
Qed.

(** A registration among the calls of the reconciliation comes from a slot
    that the scan left as it was. *)
Lemma add_key_in_compare (x : Z) (s : engine) :
  add_key x ∈ release_compare (release_scan K (snapshot s)) →
  ∃ i, i < Z.to_nat (buffer_keyreport_count s) ∧
       get (buffer_keyreports s) i = x ∧
       get (buffer_keyreports_temp (release_scan K (snapshot s))) i = x.
Proof.
  unfold release_compare.
  destruct (release_scan_frame K (snapshot s)) as [_ -> _ _ _]. simpl.
  intros (i & Hi%in_seq & Hin)%list_elem_of_In%in_flat_map.
  exists i. split; [unfold upto in Hi; lia|].
  destruct (compare_after_scan K s i) as [[Hcmp Hkept]|[Hcmp _]];
    rewrite Hcmp in Hin; destruct Hin as [Heq|[]]; [|done].
  injection Heq as <-. done.
Qed.

(** ** One event *)

Lemma guarded_state (a b : Z) (held_a held_a' : bool) (k : Z)
    (record : keyrecord_t) (s : engine) (h : gset Z) :
  (pressed (event record) = true → k ∉ control_keycodes K) →
  guarded K a b held_a s h →
  cancellation_flag (process_key_cancellation K k record s).1.2 = true ∧
  tracks_listed_keys K (process_key_cancellation K k record s).1.2 ∧
  recovery_flag (process_key_cancellation K k record s).1.2 = recovery_flag s.
Proof.
  intros Hctl G. destruct (process_passes k record s Hctl) as [_ Hcfg].
  unfold cancellation_flag, recovery_flag. rewrite Hcfg.
  split; [apply (guard_on _ _ _ _ _ _ G)|]. split; [|done].
  apply process_tracks_listed_keys, (guard_listed _ _ _ _ _ _ G).
Qed.

Lemma guarded_press_own (a b : Z) (held_a : bool) (s : engine) (h : gset Z) :
  cancels K a b →
  guarded K a b held_a s h →
  guarded K a b true (host_step K (s, h) (a, key_press)).1
                     (host_step K (s, h) (a, key_press)).2.
Proof.
  intros (Hpair & Hne & Hb0 & Hf & Hfit) G.
  pose proof Hf as (Hctl & Hbasic & Hhook).
  destruct (guarded_state a b held_a true a key_press s h (λ _, Hctl) G)
    as (Hon' & Hlisted' & Hrec').
  destruct G as [Gon Glist Gbuf Gord Ghost Gtr Gap].
  pose proof Glist as [Hok Hl].
  pose proof (listed_of_pair K a b Hpair) as Hla.
  rewrite host_step_through by done. simpl.
  destruct (press_admitted K a s Hok Hf Gon) as (s0 & E).
  assert ((process_key_cancellation K a key_press s).2 = press_path K a) as Hout
    by (by rewrite E).
  rewrite Hout. clear E s0.
  assert (b ∉ ({[a]} ∪ foldl host_apply h (press_path K a) : gset Z)) as Hb.
  { apply not_elem_of_union. split; [by apply not_elem_of_singleton|].
    apply host_apply_del; [apply press_path_no_add | by apply press_path_del]. }
  assert (recovery_flag s = true →
          held (process_key_cancellation K a key_press s).1.2 = held s ∧ a ∈ held s ∨
          (a ∉ held s) ∧
          held (process_key_cancellation K a key_press s).1.2 = held s ++ [a])
    as Hheld.
  { intros Hr. rewrite process_admitted_on by done.
    unfold track_key. rewrite Hla. simpl.
    destruct (decide (a ∈ held s)) as [Hin|Hout'].
    - left. split; [|done]. rewrite add_key_buffer_present; [done|].
      apply is_key_in_buffer_held; [|done].
      destruct Hok as [Hlen Hc _]. unfold KEYREPORT_BUFFER_SIZE in *. lia.
    - right. split; [done|]. apply add_key_buffer_held; [done..|].
      by apply (room_for_listed_key a). }
  constructor; try done.
  - intros Hr. rewrite Hrec' in Hr. split; [done|]. intros _.
    destruct (Hheld Hr) as [[-> ?]|[_ ->]]; [done|].
    apply elem_of_app. right. apply list_elem_of_here.
  - intros l1 l2 Heq.
    destruct (press_held_cases a s Hok Hctl) as [Hsame|(Hr & Hout' & Happ)].
    + rewrite Hsame in Heq. by apply (Gord l1).
    + rewrite Happ in Heq.
      rewrite (app_singleton_split _ _ _ _ Heq Hout'). apply not_elem_of_nil.
Qed.

Lemma guarded_press_other (a b : Z) (held_a : bool) (k : Z)
    (s : engine) (h : gset Z) :
  cancels K a b →
  k ≠ a → k ∉ control_keycodes K → (held_a = true → k ≠ b) →
  guarded K a b held_a s h →
  guarded K a b held_a (host_step K (s, h) (k, key_press)).1
                       (host_step K (s, h) (k, key_press)).2.
Proof.
  intros (Hpair & Hne & Hb0 & Hf & Hfit) Hka Hctl Hkb G.
  destruct (guarded_state a b held_a held_a k key_press s h (λ _, Hctl) G)
    as (Hon' & Hlisted' & Hrec').
  destruct G as [Gon Glist Gbuf Gord Ghost Gtr Gap].
  pose proof Glist as [Hok Hl].
  rewrite host_step_through by done. simpl. unfold forward. simpl.
  pose proof (λ x, host_apply_no_add (process_key_cancellation K k key_press s).2
                     h x (λ k', press_no_add K k k' s)) as Hsub.
  set (hm := foldl host_apply h (process_key_cancellation K k key_press s).2) in *.
  assert (∀ x, x ≠ k → x ∈ ({[k]} ∪ hm : gset Z) → x ∈ h) as Hin.
  { intros x Hx [?%elem_of_singleton|?]%elem_of_union; [done | by apply Hsub]. }
  pose proof (press_held_cases k s Hok Hctl) as Hheld.
  constructor; try done.
  - intros Hr. rewrite Hrec' in Hr. rewrite <- (Gbuf Hr).
    destruct Hheld as [->|(_ & _ & ->)]; [done|].
    rewrite elem_of_app, list_elem_of_singleton.
    split; [intros [?|?]; [done | congruence] | by left].
  - intros l1 l2 Heq. destruct Hheld as [Hsame|(Hr & _ & Happ)].
    + rewrite Hsame in Heq. by apply (Gord l1).
    + rewrite Happ in Heq.
      destruct (app_snoc_split _ _ _ _ _ Heq) as (l2' & -> & Hs); [congruence|].
      apply not_elem_of_app. split; [by apply (Gord l1)|].
      apply not_elem_of_cons. split; [|apply not_elem_of_nil].
      intros ->. apply Hkb; [|done]. apply (Gbuf Hr).
      rewrite Hs. apply elem_of_app. right. apply list_elem_of_here.
  - intros Ha. apply Ghost, Hin; [congruence | done].
  - intros Hr Hh Hb. rewrite Hrec' in Hr.
    assert (b ∈ held s) as Hbs.
    { apply Gtr; [done..|]. apply Hin; [|done]. intros ->. by apply Hkb. }
    destruct Hheld as [->|(_ & _ & ->)]; [done|]. apply elem_of_app. by left.
  - intros Ha Hb. assert (a ∈ h) as Hah by (apply Hin; [congruence | done]).
    apply (Gap Hah), Hin; [|done]. intros ->. apply Hkb; [|done]. by apply Ghost.
Qed.

Lemma guarded_release_own (a b : Z) (held_a : bool) (record : keyrecord_t)
    (s : engine) (h : gset Z) :
  cancels K a b →
  pressed (event record) = false →
  guarded K a b held_a s h →
  guarded K a b false (host_step K (s, h) (a, record)).1
                      (host_step K (s, h) (a, record)).2.
Proof.
  intros (Hpair & Hne & Hb0 & Hf & Hfit) Hrel G.
  pose proof Hf as (Hctl & Hbasic & Hhook).
  destruct (guarded_state a b held_a false a record s h (λ _, Hctl) G)
    as (Hon' & Hlisted' & Hrec').
  destruct G as [Gon Glist Gbuf Gord Ghost Gtr Gap].
  pose proof Glist as [Hok Hl].
  pose proof (listed_of_pair K a b Hpair) as Hla.
  rewrite host_step_through by done. simpl. unfold forward. rewrite Hrel.
  assert (∀ X : gset Z, a ∉ X ∖ {[a]}) as Hgone.
  { intros X [_ Hno]%elem_of_difference. apply Hno. by apply elem_of_singleton. }
  constructor; try done.
  - intros Hr. rewrite Hrec' in Hr. split; [|done]. intros Hin. exfalso.
    rewrite process_admitted_on in Hin by (try done; by rewrite Hrel).
    unfold track_key in Hin. rewrite Hla, Hrel in Hin.
    destruct (del_key_buffer_filter a s Hok) as [Hf' _]. rewrite Hf' in Hin.
    by apply list_elem_of_filter in Hin as [? _].
  - intros l1 l2 Heq.
    destruct (release_held_cases a record s Hok Hrel) as [Hsame|Hfil].
    + rewrite Hsame in Heq. by apply (Gord l1).
    + exfalso. rewrite Hfil in Heq.
      assert (a ∈ filter (λ x, x ≠ a) (held s)) as Hin.
      { rewrite Heq. apply elem_of_app. right. apply list_elem_of_here. }
      by apply list_elem_of_filter in Hin as [? _].
  - intros Ha. by apply Hgone in Ha.
  - intros Ha. by apply Hgone in Ha.
Qed.

(** Two registrations by one reconciliation: the slot of the cancelling key
    is not behind a slot of the key it cancels. *)
Lemma compare_registers_apart (a b : Z) (s : engine) :
  buffer_ok s →
  KeyCancellation a b ∈ key_cancellation_table K →
  a ≠ b → b ≠ 0%Z →
  (∀ l1 l2, held s = l1 ++ a :: l2 → b ∉ l2) →
  add_key a ∈ release_compare (release_scan K (snapshot s)) →
  add_key b ∈ release_compare (release_scan K (snapshot s)) →
  False.
Proof.
  intros Hok Hpair Hne Hb0 Hord Ha Hb.
  apply add_key_in_compare in Ha as (j & Hj & Haj & Htj).
  apply add_key_in_compare in Hb as (i & Hi & Hbi & Hti).
  pose proof Hok as [Hlen Hcount _]. unfold KEYREPORT_BUFFER_SIZE in *.
  assert (∀ p, p < Z.to_nat (buffer_keyreport_count s) →
               held s !! p = Some (get (buffer_keyreports s) p)) as Hlook.
  { intros p Hp. unfold held. rewrite lookup_take_lt by done.
    apply lookup_get. lia. }
  assert (i < j) as Hij.
  { destruct (decide (i < j)) as [|Hge]; [done|]. exfalso.
    assert (i ≠ j) by (intros ->; congruence).
    apply (Hord (take j (held s)) (drop (S j) (held s))).
    - symmetry. apply take_drop_middle. rewrite Hlook by done. by rewrite Haj.
    - apply list_elem_of_lookup. exists (i - S j).
      rewrite lookup_drop. replace (S j + (i - S j)) with i by lia.
      rewrite Hlook by done. by rewrite Hbi. }
  assert (get (buffer_keyreports_temp (release_scan K (snapshot s))) i = 0%Z)
    as Hzero.
  { apply (scan_down_clears K _ (snapshot s) j i (KeyCancellation a b)); simpl.
    - by apply held_once.
    - done.
    - done.
    - unfold release_scan, upto in Htj. simpl in Htj. by rewrite Htj.
    - apply (is_key_in_buffer_held b (snapshot s)); simpl; [lia|].
      apply list_elem_of_lookup. exists i. rewrite <- Hbi. by apply Hlook.
    - done.
    - by left. }
  congruence.
Qed.

Lemma guarded_release_other (a b : Z) (held_a : bool) (k : Z)
    (record : keyrecord_t) (s : engine) (h : gset Z) :
  cancels K a b →
  k ≠ a → pressed (event record) = false →
  guarded K a b held_a s h →
  guarded K a b held_a (host_step K (s, h) (k, record)).1
                       (host_step K (s, h) (k, record)).2.
Proof.
  intros (Hpair & Hne & Hb0 & Hf & Hfit) Hka Hrel G.
  assert (pressed (event record) = true → k ∉ control_keycodes K) as Hctl
    by (by rewrite Hrel).
  destruct (guarded_state a b held_a held_a k record s h Hctl G)
    as (Hon' & Hlisted' & Hrec').
  destruct G as [Gon Glist Gbuf Gord Ghost Gtr Gap].
  pose proof Glist as [Hok Hl].
  rewrite host_step_through by done. simpl. unfold forward. rewrite Hrel.
  pose proof (release_held_cases k record s Hok Hrel) as Hheld.
  set (s' := (process_key_cancellation K k record s).1.2) in *.
  set (out := (process_key_cancellation K k record s).2) in *.
  assert (∀ x, x ≠ k → x ∈ held s' ↔ x ∈ held s) as Hsame.
  { intros x Hx. destruct Hheld as [->| ->]; [done|].
    rewrite list_elem_of_filter. split; [by intros [_ ?] | done]. }
  assert (∀ l1 l2, held s' = l1 ++ a :: l2 → b ∉ l2) as Gord'.
  { intros l1 l2 Heq. destruct Hheld as [Hs|Hs]; rewrite Hs in Heq.
    - by apply (Gord l1).
    - destruct (filter_split _ _ _ _ _ Heq) as (k1 & k2 & Hk & ->).
      intros [_ Hin]%list_elem_of_filter. by apply (Gord k1 k2). }
  assert (recovery_flag s = true → a ∈ held s' ↔ held_a = true) as Gbuf'.
  { intros Hr. rewrite <- (Gbuf Hr). apply Hsame. congruence. }
  assert (∀ (X : gset Z) x, x ∈ X ∖ {[k]} → x ∈ X ∧ x ≠ k) as Hdiff.
  { intros X x [? Hx]%elem_of_difference. split; [done|].
    intros ->. apply Hx. by apply elem_of_singleton. }
  destruct (release_reconciles K k record s Hok Hrel)
    as [Hnil|(s1 & Hs1 & Hok1 & _ & _ & Hr & Hs' & Hcalls)].
  - fold out in Hnil. rewrite Hnil. simpl.
    constructor; try done.
    + intros Hr. rewrite Hrec' in Hr. by apply Gbuf'.
    + intros [Ha _]%Hdiff. by apply Ghost.
    + intros Hr Hh [Hb Hbk]%Hdiff. rewrite Hrec' in Hr.
      apply Hsame; [done|]. by apply Gtr.
    + intros [Ha _]%Hdiff [Hb _]%Hdiff. by apply (Gap Ha).
  - fold s' in Hs'. fold out in Hcalls.
    assert (held s' = held s1) as Hh1.
    { rewrite Hs'. apply (same_buffer_held _ _ (release_scan_same K (snapshot s1))). }
    pose proof (release_compare_names K s1 Hok1) as Hnames.
    rewrite <- Hcalls in Hnames.
    pose proof (λ x, host_apply_calls out (held s1) h x Hnames (ok_nodup s1 Hok1))
      as Hmem.
    assert (∀ x, add_key x ∈ out → x ∈ held s') as Hadd.
    { intros x Hx. rewrite Hh1.
      assert (Some x ∈ call_keycode <$> out) as Hin
        by (apply list_elem_of_fmap; by exists (add_key x)).
      rewrite Hnames in Hin.
      by apply list_elem_of_fmap in Hin as (y & [= <-] & ?). }
    assert (a ∈ foldl host_apply h out → held_a = true) as Ghost'.
    { intros [Ha|[Ha _]]%Hmem; [|by apply Ghost].
      apply (Gbuf' Hr). by apply Hadd. }
    assert (held_a = true → b ≠ k → b ∈ foldl host_apply h out → b ∈ held s')
      as Gtr'.
    { intros Hh Hbk [Hb|[Hb Hout]]%Hmem; [by apply Hadd|].
      apply Hsame; [done|]. by apply Gtr. }
    constructor; try done.
    + intros Hr'. by apply Gbuf'.
    + intros [Ha _]%Hdiff. by apply Ghost'.
    + intros _ Hh [Hb Hbk]%Hdiff. by apply Gtr'.
    + intros [Ha _]%Hdiff [Hb Hbk]%Hdiff.
      pose proof (Ghost' Ha) as Hh.
      pose proof (Gtr' Hh Hbk Hb) as Hbs.
      pose proof (proj2 (Gbuf' Hr) Hh) as Has.
      rewrite Hh1 in Hbs, Has.
      apply Hmem in Ha as [Ha|[_ ?]]; [|done].
      apply Hmem in Hb as [Hb|[_ ?]]; [|done].
      rewrite Hcalls in Ha, Hb.
      apply (compare_registers_apart a b s1); try done.
      by rewrite <- Hh1.
Qed.

(** ** Every event, every run *)

Lemma guarded_step (a b : Z) (held_a : bool) (ev : Z * keyrecord_t)
    (st : engine * gset Z) :
  cancels K a b →
  no_control_press K ev →
  (pressed (event ev.2) = true → held_a = true → ev.1 ≠ b) →
  guarded K a b held_a st.1 st.2 →
  guarded K a b (holds_after a held_a ev)
          (host_step K st ev).1 (host_step K st ev).2.
Proof.
  destruct st as [s h], ev as [k [[p]]]. unfold no_control_press. simpl.
  intros Hc Hctl Hev G. unfold holds_after. simpl.
  destruct (Z.eqb_spec k a) as [->|Hka], p.
  - by apply (guarded_press_own a b held_a).
  - by apply (guarded_release_own a b held_a).
  - apply guarded_press_other; auto.
  - by apply guarded_release_other.
Qed.

Lemma guarded_run (a b : Z) (evs : list (Z * keyrecord_t)) (held_a : bool)
    (st : engine * gset Z) :
  cancels K a b →
  Forall (no_control_press K) evs →
  never_pressed_while_held a b held_a evs →
  guarded K a b held_a st.1 st.2 →
  ∃ held_a', guarded K a b held_a' (host_run K evs st).1 (host_run K evs st).2.
Proof.
  intros Hc. unfold host_run. revert held_a st.
  induction evs as [|ev evs IH]; intros held_a st Hctl Hevs G; [by exists held_a|].
  destruct Hevs as [Hev Hevs]. apply Forall_cons in Hctl as [Hctl1 Hctl].
  simpl. apply (IH (holds_after a held_a ev)); [done..|]. by apply guarded_step.
Qed.

Lemma guarded_power_on (a b : Z) (cfg : keymap_config_t.t) :
  keymap_config_t.key_cancellation_enable cfg = true →
  guarded K a b false (power_on cfg) ∅.
Proof.
  intros Hon. constructor; try done.
  - split; [apply power_on_ok|]. by intros k ?%elem_of_nil.
  - intros _. split; [by intros ?%elem_of_nil | done].
  - intros l1 l2 Heq. by destruct l1.
Qed.

Lemma never_pressed_while_held_take (a b : Z) (n : nat)
    (evs : list (Z * keyrecord_t)) (held_a : bool) :
  never_pressed_while_held a b held_a evs →
  never_pressed_while_held a b held_a (take n evs).
Proof.
  revert n held_a. induction evs as [|ev evs IH]; intros n held_a Hevs.
  { by rewrite take_nil. }
  destruct n as [|n]; [done|]. destruct Hevs as [Hev Hevs].
  simpl. split; [done|]. by apply IH.
Qed.

(** ** Two keys that cancel each other *)

(** A slot that the scan leaves with the cancelling key clears the earlier
    slot of the key it cancels. *)
Lemma registered_clears_earlier (a b : Z) (s : engine) (j i : nat) :
  buffer_ok s →
  KeyCancellation a b ∈ key_cancellation_table K →
  j < Z.to_nat (buffer_keyreport_count s) →
  get (buffer_keyreports_temp (release_scan K (snapshot s))) j = a →
  i < j →
  get (buffer_keyreports s) i = b →
  get (buffer_keyreports_temp (release_scan K (snapshot s))) i = 0%Z.
Proof.
  intros Hok Hpair Hj Htj Hij Hbi.
  pose proof Hok as [Hlen Hcount _]. unfold KEYREPORT_BUFFER_SIZE in *.
  apply (scan_down_clears K _ (snapshot s) j i (KeyCancellation a b)); simpl.
  - by apply held_once.
  - done.
  - done.
  - unfold release_scan, upto in Htj. simpl in Htj. by rewrite Htj.
  - apply (is_key_in_buffer_held b (snapshot s)); simpl; [lia|].
    apply list_elem_of_lookup. exists i. rewrite <- Hbi.
    unfold held. simpl. rewrite lookup_take_lt by lia. apply lookup_get. lia.
  - done.
  - by left.
Qed.

Lemma compare_registers_one_of_two (a b : Z) (s : engine) :
  buffer_ok s →
  KeyCancellation a b ∈ key_cancellation_table K →
  KeyCancellation b a ∈ key_cancellation_table K →
  a ≠ b → a ≠ 0%Z → b ≠ 0%Z →
  add_key a ∈ release_compare (release_scan K (snapshot s)) →
  add_key b ∈ release_compare (release_scan K (snapshot s)) →
  False.
Proof.
  intros Hok Hab Hba Hne Ha0 Hb0 Ha Hb.
  apply add_key_in_compare in Ha as (j & Hj & Haj & Htj).
  apply add_key_in_compare in Hb as (i & Hi & Hbi & Hti).
  assert (i ≠ j) by (intros ->; congruence).
  destruct (decide (i < j)) as [Hlt|Hge].
  - pose proof (registered_clears_earlier a b s j i Hok Hab Hj Htj Hlt Hbi).
    congruence.
  - assert (j < i) as Hlt by lia.
    pose proof (registered_clears_earlier b a s i j Hok Hba Hi Hti Hlt Haj).
    congruence.
Qed.

Lemma admitted_state (k : Z) (record : keyrecord_t) (s : engine) :
  (pressed (event record) = true → k ∉ control_keycodes K) →
  cancellation_flag s = true →
  tracks_listed_keys K s →
  cancellation_flag (process_key_cancellation K k record s).1.2 = true ∧
  tracks_listed_keys K (process_key_cancellation K k record s).1.2 ∧
  recovery_flag (process_key_cancellation K k record s).1.2 = recovery_flag s.
Proof.
  intros Hctl Hon Hlist. destruct (process_passes k record s Hctl) as [_ Hcfg].
  unfold cancellation_flag, recovery_flag in *. rewrite Hcfg.
  split; [done|]. split; [|done]. by apply process_tracks_listed_keys.
Qed.

Lemma press_own_is_tracked (x : Z) (s : engine) :
  tracks_listed_keys K s →
  passes_filter K x →
  key_cancellation_is_key_in_press_list K x = true →
  length (press_keycodes K) ≤ 10 →
  cancellation_flag s = true → recovery_flag s = true →
  x ∈ held (process_key_cancellation K x key_press s).1.2.
Proof.
  intros Hlist (Hctl & Hbasic & Hhook) Hlx Hfit Hon Hr.
  pose proof Hlist as [Hok Hl].
  rewrite process_admitted_on by done.
  unfold track_key. rewrite Hlx. simpl.
  destruct (decide (x ∈ held s)) as [Hin|Hout].
  - rewrite add_key_buffer_present; [done|].
    apply is_key_in_buffer_held; [|done].
    destruct Hok as [Hlen Hc _]. unfold KEYREPORT_BUFFER_SIZE in *. lia.
  - destruct (add_key_buffer_held x s Hok Hout) as [-> _].
    { by apply (room_for_listed_key x). }
    apply elem_of_app. right. apply list_elem_of_here.
Qed.

Lemma press_unregisters (a b : Z) (s : engine) (h : gset Z) :
  buffer_ok s → cancellation_flag s = true →
  KeyCancellation a b ∈ key_cancellation_table K →
  a ≠ b → passes_filter K a →
  b ∉ (host_step K (s, h) (a, key_press)).2.
Proof.
  intros Hok Hon Hpair Hne Hf. pose proof Hf as (Hctl & _).
  rewrite host_step_through by done. simpl.
  destruct (press_admitted K a s Hok Hf Hon) as (s0 & E). rewrite E. simpl.
  unfold forward. simpl.
  apply not_elem_of_union. split; [by apply not_elem_of_singleton|].
  apply host_apply_del; [apply press_path_no_add | by apply press_path_del].
Qed.

Lemma press_other_registers_nothing (x k : Z) (s : engine) (h : gset Z) :
  k ∉ control_keycodes K → x ≠ k →
  x ∈ (host_step K (s, h) (k, key_press)).2 → x ∈ h.
Proof.
  intros Hctl Hxk. rewrite host_step_through by done. simpl.
  unfold forward. simpl.
  intros [?%elem_of_singleton|Hx]%elem_of_union; [done|].
  apply host_apply_no_add in Hx; [done|]. intros k'. apply press_no_add.
Qed.

Lemma tracked_press (x k : Z) (s : engine) (h : gset Z) :
  cancellation_flag s = true →
  tracks_listed_keys K s →
  passes_filter K x →
  key_cancellation_is_key_in_press_list K x = true →
  length (press_keycodes K) ≤ 10 →
  k ∉ control_keycodes K →
  (x ∈ h → x ∈ held s) →
  recovery_flag s = true →
  x ∈ (host_step K (s, h) (k, key_press)).2 →
  x ∈ held (host_step K (s, h) (k, key_press)).1.
Proof.
  intros Hon Hlist Hf Hlx Hfit Hctl Htr Hr Hx.
  pose proof Hlist as [Hok Hl].
  destruct (decide (x = k)) as [->|Hxk].
  - rewrite host_step_through by done. simpl. by apply press_own_is_tracked.
  - apply press_other_registers_nothing in Hx; [|done..].
    rewrite host_step_through by done. simpl.
    destruct (press_held_cases k s Hok Hctl) as [->|(_ & _ & ->)].
    + by apply Htr.
    + apply elem_of_app. left. by apply Htr.
Qed.

Lemma tracked_release (x k : Z) (record : keyrecord_t) (s : engine) (h : gset Z) :
  buffer_ok s →
  pressed (event record) = false →
  (x ∈ h → x ∈ held s) →
  x ∈ (host_step K (s, h) (k, record)).2 →
  x ∈ held (host_step K (s, h) (k, record)).1.
Proof.
  intros Hok Hrel Htr.
  assert (pressed (event record) = true → k ∉ control_keycodes K) as Hctl
    by (by rewrite Hrel).
  rewrite host_step_through by done. simpl. unfold forward. rewrite Hrel.
  intros [Hx Hxk]%elem_of_difference. rewrite not_elem_of_singleton in Hxk.
  assert (x ∈ held s → x ∈ held (process_key_cancellation K k record s).1.2)
    as Hkeep.
  { intros Hin. destruct (release_held_cases k record s Hok Hrel) as [->| ->];
      [done|]. by apply list_elem_of_filter. }
  destruct (release_reconciles K k record s Hok Hrel)
    as [Hnil|(s1 & Hs1 & Hok1 & _ & _ & _ & Hs' & Hcalls)].
  - rewrite Hnil in Hx. simpl in Hx. by apply Hkeep, Htr.
  - pose proof (release_compare_names K s1 Hok1) as Hnames.
    rewrite <- Hcalls in Hnames.
    apply (host_apply_calls _ (held s1) h x Hnames (ok_nodup s1 Hok1)) in Hx
      as [Hx|[Hx _]]; [|by apply Hkeep, Htr].
    rewrite Hs'.
    rewrite (same_buffer_held _ _ (release_scan_same K (snapshot s1))).
    assert (Some x ∈ call_keycode <$> (process_key_cancellation K k record s).2)
      as Hin by (apply list_elem_of_fmap; by exists (add_key x)).
    rewrite Hnames in Hin.
    by apply list_elem_of_fmap in Hin as (y & [= <-] & ?).
Qed.

(** Two keys that the host holds after a release were both registered by
    the reconciliation, or the host held both before. *)
Lemma release_holds_two (a b k : Z) (record : keyrecord_t) (s : engine)
    (h : gset Z) :
  buffer_ok s →
  pressed (event record) = false →
  (recovery_flag s = true → a ∈ h → a ∈ held s) →
  (recovery_flag s = true → b ∈ h → b ∈ held s) →
  a ∈ (host_step K (s, h) (k, record)).2 →
  b ∈ (host_step K (s, h) (k, record)).2 →
  (a ∈ h ∧ b ∈ h) ∨
  ∃ s1, buffer_ok s1 ∧
        add_key a ∈ release_compare (release_scan K (snapshot s1)) ∧
        add_key b ∈ release_compare (release_scan K (snapshot s1)).
Proof.
  intros Hok Hrel Ha Hb.
  assert (pressed (event record) = true → k ∉ control_keycodes K) as Hctl
    by (by rewrite Hrel).
  rewrite host_step_through by done. simpl. unfold forward. rewrite Hrel.
  intros [Hxa Hak]%elem_of_difference [Hxb Hbk]%elem_of_difference.
  rewrite not_elem_of_singleton in Hak, Hbk.
  destruct (release_reconciles K k record s Hok Hrel)
    as [Hnil|(s1 & Hs1 & Hok1 & _ & _ & Hr & Hs' & Hcalls)].
  { rewrite Hnil in Hxa, Hxb. by left. }
  pose proof (release_compare_names K s1 Hok1) as Hnames.
  rewrite <- Hcalls in Hnames.
  pose proof (λ x, host_apply_calls _ (held s1) h x Hnames (ok_nodup s1 Hok1))
    as Hmem.
  assert (∀ x, x ≠ k → x ∈ held s → x ∈ held s1) as Hkeep.
  { intros x Hxk Hin.
    assert (held (process_key_cancellation K k record s).1.2 = held s1) as Hh1.
    { rewrite Hs'.
      apply (same_buffer_held _ _ (release_scan_same K (snapshot s1))). }
    rewrite <- Hh1.
    destruct (release_held_cases k record s Hok Hrel) as [->| ->]; [done|].
    by apply list_elem_of_filter. }
  apply Hmem in Hxa as [Hxa|[Hxa Hout]];
    [|exfalso; apply Hout, Hkeep; [done | by apply Ha]].
  apply Hmem in Hxb as [Hxb|[Hxb Hout]];
    [|exfalso; apply Hout, Hkeep; [done | by apply Hb]].
  right. exists s1. rewrite <- Hcalls. done.
Qed.

Lemma guarded_both_step (a b : Z) (ev : Z * keyrecord_t)
    (st : engine * gset Z) :
  cancels K a b → cancels K b a →
  no_control_press K ev →
  guarded_both K a b st.1 st.2 →
  guarded_both K a b (host_step K st ev).1 (host_step K st ev).2.
Proof.
  destruct st as [s h], ev as [k [[p]]]. unfold no_control_press. simpl.
  intros (Hab & Hne & Hb0 & Hfa & Hfit) (Hba & _ & Ha0 & Hfb & _) Hctl G.
  destruct G as [Gon Glist Ga Gb Gap]. pose proof Glist as [Hok Hl].
  pose proof (listed_of_pair K a b Hab) as Hla.
  pose proof (listed_of_pair K b a Hba) as Hlb.
  assert (cancellation_flag (host_step K (s, h) (k, KeyRecord (KeyEvent p))).1 = true ∧
          tracks_listed_keys K (host_step K (s, h) (k, KeyRecord (KeyEvent p))).1 ∧
          recovery_flag (host_step K (s, h) (k, KeyRecord (KeyEvent p))).1 =
            recovery_flag s) as (Hon' & Hlist' & Hrec').
  { rewrite host_step_through by done. simpl. by apply admitted_state. }
  constructor; [done | done | | |].
  - rewrite Hrec'. intros Hr. destruct p.
    + apply tracked_press; auto.
    + apply tracked_release; auto.
  - rewrite Hrec'. intros Hr. destruct p.
    + apply tracked_press; auto.
    + apply tracked_release; auto.
  - destruct p.
    + destruct (decide (k = a)) as [->|Hka].
      { intros _. by apply press_unregisters. }
      destruct (decide (k = b)) as [->|Hkb].
      { intros Hin. exfalso. revert Hin. apply press_unregisters; auto. }
      intros Hina Hinb.
      apply press_other_registers_nothing in Hina; [|auto..].
      apply press_other_registers_nothing in Hinb; [|auto..].
      by apply (Gap Hina).
    + intros Hina Hinb.
      destruct (release_holds_two a b k key_release s h Hok eq_refl Ga Gb Hina Hinb)
        as [[Hxa Hxb]|(s1 & Hok1 & Hca & Hcb)].
      * by apply (Gap Hxa).
      * by apply (compare_registers_one_of_two a b s1).
Qed.

Lemma guarded_both_run (a b : Z) (evs : list (Z * keyrecord_t))
    (st : engine * gset Z) :
  cancels K a b → cancels K b a →
  Forall (no_control_press K) evs →
  guarded_both K a b st.1 st.2 →
  guarded_both K a b (host_run K evs st).1 (host_run K evs st).2.
Proof.
  intros Hab Hba. unfold host_run. revert st.
  induction evs as [|ev evs IH]; intros st Hctl G; [done|].
  apply Forall_cons in Hctl as [Hctl1 Hctl].
  simpl. apply IH; [done|]. by apply guarded_both_step.
Qed.

Lemma guarded_both_power_on (a b : Z) (cfg : keymap_config_t.t) :
  keymap_config_t.key_cancellation_enable cfg = true →
  guarded_both K a b (power_on cfg) ∅.
Proof.
  intros Hon. constructor; try done.
  split; [apply power_on_ok|]. by intros k ?%elem_of_nil.
Qed.

(** C4, as the code has it. Take a table entry making A cancel B, with A
    and B distinct, B not the keycode 0, A a keycode that passes the
    admission filter on both edges, and a table with at most ten distinct
    [press] keycodes ([cancels K A B]).  Start from power-on with
    cancellation enabled (recovery on or off) and an empty host report, and
    feed any sequence of presses and releases in which no control keycode
    is pressed and, unless B cancels A in the same way, B is not pressed
    while A is physically held.  Then after every prefix of the sequence,
    through every press path and every release-path reconciliation, the
    host report does not hold A and B together; and right after a press of
    A the report holds A. *)
Theorem cancelled_key_is_never_held_with_its_canceller
    (A B : Z) (cfg : keymap_config_t.t) (evs : list (Z * keyrecord_t)) :
  keymap_config_t.key_cancellation_enable cfg = true →
  cancels K A B →
  Forall (no_control_press K) evs →
  never_pressed_while_held A B false evs ∨ cancels K B A →
  ∀ n,
    let h := (host_run K (take n evs) (power_on cfg, ∅)).2 in
    (A ∈ h → B ∉ h) ∧
    (∀ evs', take n evs = evs' ++ [(A, key_press)] → A ∈ h).
Proof.
  intros Hon Hc Hctl Hevs n h. unfold h. clear h. split.
  - assert (Forall (no_control_press K) (take n evs)) as Hctl'
      by (by apply Forall_take).
    destruct Hevs as [Hevs|Hback].
    + destruct (guarded_run A B (take n evs) false (power_on cfg, ∅))
        as (held_a & G).
      * done.
      * done.
      * by apply never_pressed_while_held_take.
      * by apply guarded_power_on.
      * apply (guard_apart _ _ _ _ _ _ G).
    + apply (both_apart K A B (host_run K (take n evs) (power_on cfg, ∅)).1).
      apply guarded_both_run; [done..|]. by apply guarded_both_power_on.
  - intros evs' ->. unfold host_run. rewrite foldl_app. simpl.
    destruct (foldl (host_step K) (power_on cfg, ∅) evs') as [s0 h0].
    destruct Hc as (_ & _ & _ & (Hctl0 & _) & _).
    rewrite host_step_through by done. simpl. unfold forward. simpl.
    apply elem_of_union_l. by apply elem_of_singleton.
Qed.
End NoDoubleHold.

(** ** The no-double-hold statement on concrete runs *)

Ltac concrete_run :=
  simpl; repeat first [ split | apply Forall_cons | apply Forall_nil ];
  try done; unfold no_control_press; intros; try discriminate;
  try by_evaluation.

Lemma demo_cancels (table : list key_cancellation_t) (a b : Z) :
  KeyCancellation a b ∈ table → a ≠ b → b ≠ 0%Z → (0 <= a <= 255)%Z →
  length (press_keycodes (demo_keymap table)) ≤ 10 →
  cancels (demo_keymap table) a b.
Proof.
  intros Hin Hne Hb0 Ha Hfit. repeat split; try done.
  - by apply demo_passes_filter.
  - by apply demo_passes_filter.
Defined.

Lemma cancelled_key_is_never_held_with_its_canceller_witness :
  let evs := [(KC_D, key_press); (KC_A, key_press); (KC_S, key_release);
              (KC_A, key_release)] in
  let h := (host_run chained (take 3 evs) (power_on all_on, ∅)).2 in
  let evs2 := [(KC_A, key_press); (KC_D, key_press); (KC_W, key_release);
               (KC_D, key_release)] in
  let h2 := (host_run two_way (take 4 evs2) (power_on all_on, ∅)).2 in
  (KC_A ∈ h ∧ KC_D ∉ h) ∧ (KC_A ∈ h2 ∧ KC_D ∉ h2).
Proof.
  intros evs h evs2 h2.
  assert (KC_A ∈ h) as Ha by by_evaluation.
  assert (KC_A ∈ h2) as Ha2 by by_evaluation.
  split; (split; [done|]).
  - revert Ha.
    refine (proj1 (cancelled_key_is_never_held_with_its_canceller chained
                     KC_A KC_D all_on evs _ _ _ _ 3)).
    + reflexivity.
    + apply demo_cancels; [apply list_elem_of_here | unfold KC_A, KC_D; lia..
                          | vm_compute; lia].
    + unfold evs. concrete_run.
    + left. unfold evs. concrete_run.
  - revert Ha2.
    refine (proj1 (cancelled_key_is_never_held_with_its_canceller two_way
                     KC_A KC_D all_on evs2 _ _ _ _ 4)).
    + reflexivity.
    + apply demo_cancels; [apply list_elem_of_here | unfold KC_A, KC_D; lia..
                          | vm_compute; lia].
    + unfold evs2. concrete_run.
    + right.
      apply demo_cancels; [apply list_elem_of_further, list_elem_of_here
                          | unfold KC_A, KC_D; lia.. | vm_compute; lia].
Defined.

(** Each condition of the statement is needed.  In the runs below no other
    condition than the one named fails, and the host ends up holding the
    two keys together. *)

(** More [press] keycodes than the buffer takes: A is pressed on a full
    buffer and is not tracked, so the next reconciliation registers D.
    Each of A and D cancels the other here. *)
Example double_hold_on_full_buffer :
  let evs := [(KC_D, key_press)] ++
             ((λ k, (k, key_press)) <$> [30; 31; 32; 33; 34; 35; 36; 37; 38]%Z) ++
             [(KC_A, key_press); (30%Z, key_release)] in
  let h := (host_run crowded evs (power_on all_on, ∅)).2 in
  Forall (no_control_press crowded) evs ∧
  never_pressed_while_held KC_A KC_D false evs ∧
  length (press_keycodes crowded) = 12 ∧
  KC_A ∈ h ∧ KC_D ∈ h.
Proof.
  split; [concrete_run|]. split; [concrete_run|]. split; [reflexivity|].
  split; by_evaluation.
Qed.

(** A control keycode switches recovery off while A is pressed and on
    again afterwards. *)
Example double_hold_after_mode_change :
  let evs := [(KC_D, key_press);
              (QK_KEY_CANCELLATION_RECOVERY_OFF two_way, key_press);
              (KC_A, key_press);
              (QK_KEY_CANCELLATION_RECOVERY_ON two_way, key_press);
              (KC_W, key_release)] in
  let h := (host_run two_way evs (power_on all_on, ∅)).2 in
  never_pressed_while_held KC_A KC_D false evs ∧
  KC_A ∈ h ∧ KC_D ∈ h.
Proof. split; [concrete_run|]. split; by_evaluation. Qed.

(** The cancelled keycode is 0, the value of a cleared scratch slot. *)
Example double_hold_of_keycode_zero :
  let evs := [(0%Z, key_press); (KC_A, key_press); (KC_W, key_release)] in
  let h := (host_run cancels_nothing evs (power_on all_on, ∅)).2 in
  Forall (no_control_press cancels_nothing) evs ∧
  never_pressed_while_held KC_A 0 false evs ∧
  KC_A ∈ h ∧ 0%Z ∈ h.
Proof.
  split; [concrete_run|]. split; [concrete_run|]. split; by_evaluation.
Qed.

(** The user hook rejects the release of A, which stays in the buffer. *)
Example double_hold_after_rejected_release :
  let evs := [(KC_A, key_press); (KC_A, key_release); (KC_D, key_press);
              (KC_S, key_release)] in
  let h := (host_run (keeps chained KC_A) evs (power_on all_on, ∅)).2 in
  Forall (no_control_press (keeps chained KC_A)) evs ∧
  never_pressed_while_held KC_A KC_D false evs ∧
  KC_A ∈ h ∧ KC_D ∈ h.
Proof.
  split; [concrete_run|]. split; [concrete_run|]. split; by_evaluation.
Qed.

(** Each of A and D cancels the other, and the user hook rejects the
    events of D: its press reaches the host without the call that
    unregisters A. *)
Example double_hold_after_rejected_press :
  let evs := [(KC_A, key_press); (KC_D, key_press)] in
  let h := (host_run (ignores two_way KC_D) evs (power_on all_on, ∅)).2 in
  Forall (no_control_press (ignores two_way KC_D)) evs ∧
  passes_filter (ignores two_way KC_D) KC_A ∧
  KC_A ∈ h ∧ KC_D ∈ h.
Proof.
  split; [concrete_run|]. split; [|split; by_evaluation].
  split; [by_evaluation|]. split; [done|]. by intros record.
Qed.
